(** * LLMDistribution: the caching proxy and its content-addressed store

    A shallow embedding of the Go packages [pkg/utils], [pkg/filestorage]
    and [pkg/proxy] over a small model of the file system, followed by the
    properties of the cache layout, the revision resolver, the model index
    builder and the streaming tee. *)

From Stdlib Require Import String Ascii List ZArith Lia Bool Arith DecimalString.
From Stdlib.Strings Require Import Byte.
From Equations Require Import Equations.
Import ListNotations.

Local Open Scope string_scope.
Local Open Scope list_scope.

#[local] Set Warnings "-register-all".

(* ===================================================================== *)
(** ** Go strings *)
(* ===================================================================== *)

Module Strings.

(** [strings.ReplaceAll s old new] for a pattern [old] of one byte, the
    only form the program uses ("/" and the double quote). *)
Fixpoint ReplaceAll (s : string) (old : ascii) (new : string) : string :=
  match s with
  | EmptyString => EmptyString
  | String c rest =>
      if Ascii.eqb c old
      then (new ++ ReplaceAll rest old new)%string
      else String c (ReplaceAll rest old new)
  end.

(** [strings.Split s sep] for a separator of one byte: the pieces of [s]
    between occurrences of [sep]; never empty. *)
Fixpoint Split (s : string) (sep : ascii) : list string :=
  match s with
  | EmptyString => [EmptyString]
  | String c rest =>
      if Ascii.eqb c sep
      then EmptyString :: Split rest sep
      else match Split rest sep with
           | [] => [String c EmptyString]
           | piece :: pieces => String c piece :: pieces
           end
  end.

(** Number of occurrences of a byte, [strings.Count] with a one-byte
    pattern. *)
Fixpoint Count (s : string) (c : ascii) : nat :=
  match s with
  | EmptyString => 0
  | String d rest => (if Ascii.eqb d c then 1 else 0) + Count rest c
  end.

(** [strings.Contains] with a one-byte pattern. *)
Definition ContainsByte (s : string) (c : ascii) : bool :=
  negb (Nat.eqb (Count s c) 0).

End Strings.

(* ===================================================================== *)
(** ** pkg/utils *)
(* ===================================================================== *)

Module Utils.

Definition slash : ascii := "/"%char.
Definition dash : ascii := "-"%char.

(** [ConvertModelIDToHFPath] of util.go. *)
Definition ConvertModelIDToHFPath (modelID : string) : string :=
  ("models--" ++ Strings.ReplaceAll modelID slash "--")%string.

End Utils.

(* ===================================================================== *)
(** ** Results and errors *)
(* ===================================================================== *)

(** A Go pair [(value, error)] in which exactly one side is meaningful. *)
Inductive result (E A : Type) : Type :=
| Ok (a : A)
| Err (e : E).
Arguments Ok {E A} a.
Arguments Err {E A} e.

Definition isOk {E A} (r : result E A) : bool :=
  match r with Ok _ => true | Err _ => false end.

(** The 64-bit two's-complement value of an integer: Go's [int64] and, on the
    platforms the program targets, [int]. *)
Definition wrap64 (z : Z) : Z := ((z + 2 ^ 63) mod 2 ^ 64 - 2 ^ 63)%Z.

(* ===================================================================== *)
(** ** path/filepath, on absolute cleaned paths *)
(* ===================================================================== *)

Module Filepath.

(** A cleaned absolute path: its components below the root. *)
Definition path := list string.

(** One more path element applied to a cleaned path, as [filepath.Clean]
    treats it: empty and "." elements vanish, ".." climbs and stays at
    the root. *)
Definition enter (p : path) (c : string) : path :=
  if String.eqb c "" then p
  else if String.eqb c "." then p
  else if String.eqb c ".." then removelast p
  else p ++ [c].

(** [filepath.Join base elems...] for an absolute [base]: every element
    is cut at its separators and the result is cleaned. *)
Definition Join (base : path) (elems : list string) : path :=
  fold_left (fun p e => fold_left enter (Strings.Split e Utils.slash) p)
            elems base.

(** The file half of [filepath.Split]: what follows the last separator. *)
Definition SplitFile (p : path) : string := last p "".

(** [filepath.Base]. *)
Definition Base (p : path) : string := last p "/".

(** [filepath.Abs] leaves an absolute cleaned path as it is. *)
Definition Abs (p : path) : path := p.

(** The path as the program prints and stores it. *)
Definition toString (p : path) : string :=
  match p with
  | [] => "/"
  | _ => String.concat "" (map (fun c => String Utils.slash c) p)
  end.

End Filepath.

(* ===================================================================== *)
(** ** The file system the cache lives on *)
(* ===================================================================== *)

Module OS.
Import Filepath.

(** A directory tree with symbolic links.  The entries of a directory are
    kept in the order in which [os.ReadDir] reports them (by file name).
    A link stores its target in resolved form, absolute and cleaned:
    the cache root is an absolute directory, so every target the proxy
    writes has this form. *)
Inductive node : Type :=
| NFile (data : list byte)
| NSymlink (target : path)
| NDir (entries : list (string * node)).

Inductive errno : Type :=
| ENOENT | ENOTDIR | EISDIR | EEXIST | ELOOP | ENOTEMPTY | EINVAL | EBADF.

(** [os.IsNotExist]. *)
Definition IsNotExist (e : errno) : bool :=
  match e with ENOENT => true | _ => false end.

(** [os.IsNotExist(err)] on the error side of a call; false for [nil]. *)
Definition notExist {A} (r : result errno A) : bool :=
  match r with Err e => IsNotExist e | Ok _ => false end.

(** [fs.FileMode] bits. *)
Definition ModeDir : Z := Z.shiftl 1 31.
Definition ModeSymlink : Z := Z.shiftl 1 27.

Record FileInfo : Type := mkFileInfo {
  Name : string;
  Size : Z;
  Mode : Z
}.

Definition IsDir (i : FileInfo) : bool :=
  negb (Z.eqb (Z.land (Mode i) ModeDir) 0).

(** What [lstat] reports for a node under a given name. *)
Definition infoOf (name : string) (n : node) : FileInfo :=
  match n with
  | NFile data => mkFileInfo name (Z.of_nat (List.length data)) 420
  | NSymlink t =>
      mkFileInfo name (Z.of_nat (String.length (toString t)))
                 (Z.lor ModeSymlink 511)
  | NDir _ => mkFileInfo name 4096 (Z.lor ModeDir 493)
  end.

Fixpoint child (name : string) (es : list (string * node)) : option node :=
  match es with
  | [] => None
  | (n, x) :: es' => if String.eqb n name then Some x else child name es'
  end.

(** Outcome of a path walk: the node with its real path, a missing last
    component of an existing directory, or a failure. *)
Inductive located : Type :=
| Found (real : path) (n : node)
| Absent (parent : path) (name : string)
| Failed (e : errno).

Definition isNil {A} (l : list A) : bool :=
  match l with [] => true | _ => false end.

(** Path resolution.  [fuel] bounds the number of links followed; a link
    in the last position is followed only when [follow] is set. *)
Fixpoint namei (fuel : nat) (root : node) (follow : bool)
  : path -> node -> path -> located :=
  fix go (cur : path) (here : node) (rest : path) {struct rest} : located :=
    match rest with
    | [] => Found cur here
    | c :: rest' =>
        match here with
        | NDir es =>
            match child c es with
            | None => if isNil rest' then Absent cur c else Failed ENOENT
            | Some (NSymlink t) =>
                if isNil rest' && negb follow
                then Found (cur ++ [c]) (NSymlink t)
                else match fuel with
                     | O => Failed ELOOP
                     | S fuel' => namei fuel' root follow [] root (t ++ rest')
                     end
            | Some n => go (cur ++ [c]) n rest'
            end
        | _ => Failed ENOTDIR
        end
    end.

(** The kernel gives up after this many links. *)
Definition maxSymlinks : nat := 40.

Definition locate (root : node) (follow : bool) (p : path) : located :=
  namei maxSymlinks root follow [] root p.

Definition Stat (root : node) (p : path) : result errno FileInfo :=
  match locate root true p with
  | Found _ n => Ok (infoOf (Base p) n)
  | Absent _ _ => Err ENOENT
  | Failed e => Err e
  end.

Definition Lstat (root : node) (p : path) : result errno FileInfo :=
  match locate root false p with
  | Found _ n => Ok (infoOf (Base p) n)
  | Absent _ _ => Err ENOENT
  | Failed e => Err e
  end.

Definition Readlink (root : node) (p : path) : result errno path :=
  match locate root false p with
  | Found _ (NSymlink t) => Ok t
  | Found _ _ => Err EINVAL
  | Absent _ _ => Err ENOENT
  | Failed e => Err e
  end.

Definition ReadFile (root : node) (p : path) : result errno (list byte) :=
  match locate root true p with
  | Found _ (NFile data) => Ok data
  | Found _ (NDir _) => Err EISDIR
  | Found _ (NSymlink _) => Err ELOOP
  | Absent _ _ => Err ENOENT
  | Failed e => Err e
  end.

(** A directory entry as [os.ReadDir] and [filepath.WalkDir] hand it out:
    name and type, with [Info] the [lstat] of the entry. *)
Definition DirEntry : Type := FileInfo.

Definition ReadDir (root : node) (p : path) : result errno (list DirEntry) :=
  match locate root true p with
  | Found _ (NDir es) => Ok (map (fun e => infoOf (fst e) (snd e)) es)
  | Found _ _ => Err ENOTDIR
  | Absent _ _ => Err ENOENT
  | Failed e => Err e
  end.


(** [filepath.WalkDir]: the callback sees the root and then, directory by
    directory, every entry below it in [ReadDir] order; the first error
    it returns ends the walk.  Links are reported, never entered.  The
    callback gets either the entry or the error met at that path.  The
    sentinel results [SkipDir] and [SkipAll] are left out: the one
    callback of this program never returns them. *)
Section WalkDir.
Context {St Er : Type}.
Variable fn : path -> result errno DirEntry -> St -> St * option Er.

Fixpoint walkDir (p : path) (name : string) (n : node) (st : St)
  {struct n} : St * option Er :=
  match fn p (Ok (infoOf name n)) st with
  | (st', Some e) => (st', Some e)
  | (st', None) =>
      match n with
      | NDir es =>
          (fix each (es : list (string * node)) (st : St) : St * option Er :=
             match es with
             | [] => (st, None)
             | (c, x) :: es' =>
                 match walkDir (Join p [c]) c x st with
                 | (st1, Some e) => (st1, Some e)
                 | (st1, None) => each es' st1
                 end
             end) es st'
      | _ => (st', None)
      end
  end.

Definition WalkDir (root : node) (p : path) (st : St) : St * option Er :=
  match locate root false p with
  | Found _ n => walkDir p (Base p) n st
  | Absent _ _ => fn p (Err ENOENT) st
  | Failed e => fn p (Err e) st
  end.
End WalkDir.

(** *** Updates *)

(** Put an entry into a directory listing, replacing one of the same
    name and otherwise keeping the listing in name order. *)
Fixpoint setChild (name : string) (x : node) (es : list (string * node))
  : list (string * node) :=
  match es with
  | [] => [(name, x)]
  | (n, y) :: es' =>
      if String.eqb n name then (name, x) :: es'
      else if String.ltb name n then (name, x) :: (n, y) :: es'
      else (n, y) :: setChild name x es'
  end.

Fixpoint delChild (name : string) (es : list (string * node))
  : list (string * node) :=
  match es with
  | [] => []
  | (n, y) :: es' =>
      if String.eqb n name then es' else (n, y) :: delChild name es'
  end.

(** Rewrite the listing of the directory at a real path. *)
Fixpoint modify (real : path)
  (f : list (string * node) -> list (string * node)) (n : node) : node :=
  match real with
  | [] => match n with NDir es => NDir (f es) | _ => n end
  | c :: real' =>
      match n with
      | NDir es =>
          NDir (map (fun e => if String.eqb (fst e) c
                              then (fst e, modify real' f (snd e))
                              else e) es)
      | _ => n
      end
  end.

Definition Mkdir (root : node) (p : path) : node * option errno :=
  match locate root false p with
  | Found _ _ => (root, Some EEXIST)
  | Absent parent name => (modify parent (setChild name (NDir [])) root, None)
  | Failed e => (root, Some e)
  end.

(** [os.MkdirAll], on the path written last component first. *)
Fixpoint mkdirAll (root : node) (rev_p : list string) : node * option errno :=
  let p := rev rev_p in
  match Stat root p with
  | Ok i => if IsDir i then (root, None) else (root, Some ENOTDIR)
  | Err _ =>
      match rev_p with
      | [] => (root, Some ENOTDIR)
      | _ :: rev_parent =>
          match mkdirAll root rev_parent with
          | (root', Some e) => (root', Some e)
          | (root', None) =>
              match Mkdir root' p with
              | (root'', None) => (root'', None)
              | (root'', Some e) =>
                  match Lstat root'' p with
                  | Ok i => if IsDir i then (root'', None) else (root'', Some e)
                  | Err _ => (root'', Some e)
                  end
              end
          end
      end
  end.

Definition MkdirAll (root : node) (p : path) : node * option errno :=
  mkdirAll root (rev p).

(** An open file: the real path of the file and the write position. *)
Record File : Type := mkFile {
  fname : path;
  offset : nat
}.

(** [os.Create]: the file is created or truncated; a link in the last
    position is followed. *)
Definition Create (root : node) (p : path) : node * result errno File :=
  match locate root true p with
  | Found real (NFile _) =>
      (modify (removelast real) (setChild (last real "") (NFile [])) root,
       Ok (mkFile real 0))
  | Found _ (NDir _) => (root, Err EISDIR)
  | Found _ (NSymlink _) => (root, Err ELOOP)
  | Absent parent name =>
      (modify parent (setChild name (NFile [])) root,
       Ok (mkFile (parent ++ [name]) 0))
  | Failed e => (root, Err e)
  end.

(** [os.Remove]: a file or a link is unlinked, an empty directory is
    removed. *)
Definition Remove (root : node) (p : path) : node * option errno :=
  match locate root false p with
  | Found real (NDir (_ :: _)) => (root, Some ENOTEMPTY)
  | Found real _ =>
      match real with
      | [] => (root, Some EINVAL)
      | _ => (modify (removelast real) (delChild (last real "")) root, None)
      end
  | Absent _ _ => (root, Some ENOENT)
  | Failed e => (root, Some e)
  end.

(** [os.Symlink target linkpath]. *)
Definition Symlink (root : node) (target linkpath : path) : node * option errno :=
  match locate root false linkpath with
  | Found _ _ => (root, Some EEXIST)
  | Absent parent name =>
      (modify parent (setChild name (NSymlink target)) root, None)
  | Failed e => (root, Some e)
  end.

(** Bytes placed at a position of a file's content; a gap is zero
    filled. *)
Definition splice (data : list byte) (off : nat) (bytes : list byte)
  : list byte :=
  firstn off (data ++ repeat x00 (off - List.length data))
    ++ bytes ++ skipn (off + List.length bytes) data.

(** [Write] of an [os.File]: all of [bytes] goes to the file at the write
    position, which advances. *)
Definition FileWrite (root : node) (f : File) (bytes : list byte)
  : (node * File) * (Z * option errno) :=
  match locate root false (fname f) with
  | Found real (NFile data) =>
      ((modify (removelast real)
               (setChild (last real "") (NFile (splice data (offset f) bytes)))
               root,
        mkFile (fname f) (offset f + List.length bytes)),
       (Z.of_nat (List.length bytes), None))
  | _ => ((root, f), (0%Z, Some EBADF))
  end.

(** [os.Open]: the node is opened for reading; a link in the last
    position is followed. *)
Definition Open (root : node) (p : path) : result errno File :=
  match locate root true p with
  | Found real _ => Ok (mkFile real 0)
  | Absent _ _ => Err ENOENT
  | Failed e => Err e
  end.

(** [io.ReadAll] on an open file: what lies between the read position and
    the end of the file. *)
Definition ReadAll (root : node) (f : File) : result errno (list byte) :=
  match locate root false (fname f) with
  | Found _ (NFile data) => Ok (skipn (offset f) data)
  | Found _ (NDir _) => Err EISDIR
  | _ => Err EBADF
  end.

(** [io.Copy] into an open file from a reader that delivers [chunks]: every
    delivery that is not empty is written, the count of bytes written is
    kept, and the first failed write ends the copy. *)
Fixpoint Copy (root : node) (f : File) (chunks : list (list byte))
  (written : Z) : (node * File) * (Z * option errno) :=
  match chunks with
  | [] => ((root, f), (written, None))
  | chunk :: chunks' =>
      if isNil chunk then Copy root f chunks' written
      else
        match FileWrite root f chunk with
        | (w, (nw, Some ew)) => (w, (wrap64 (written + nw), Some ew))
        | ((root', f'), (nw, None)) =>
            Copy root' f' chunks' (wrap64 (written + nw))
        end
  end.

End OS.

(* ===================================================================== *)
(** ** pkg/filestorage: storage.go *)
(* ===================================================================== *)

Module Filestorage.
Import Filepath OS.

Definition Time : Type := Z.

Record Sibling : Type := mkSibling { Rfilename : string }.

(** The fields of [Model] the storage fills in; every other field of the
    Go struct keeps its zero value. *)
Record Model : Type := mkModel {
  ID : string;
  ModelID : string;
  Author : string;
  SHA : string;
  LastModified : Time;
  Disabled : bool;
  CreatedAt : Time;
  UsedStorage : Z;
  Siblings : list Sibling
}.

Inductive error : Type :=
| ModelNotFound (modelID : string)
| FileNotFound (modelID filename : string)
| ReadDirectoryFailed (e : errno)
| ModelIndexNotFound (modelID : string)
| ReadModelIndexFailed (e : errno)
| UnmarshalFailed
| VersionFileNotFound (versionFilePath : path)
| ReadVersionFileFailed (e : errno)
| PathError (e : errno).

Record Storage : Type := mkStorage { baseDir : path }.

(** [NewStorage]: the store lives in the [hub] directory of the cache
    root. *)
Definition NewStorage (root : node) (base : path)
  : node * result error Storage :=
  let baseDir := Join base ["hub"] in
  if notExist (Stat root baseDir)
  then match MkdirAll root baseDir with
       | (root', Some e') => (root', Err (PathError e'))
       | (root', None) => (root', Ok (mkStorage baseDir))
       end
  else (root, Ok (mkStorage baseDir)).

Definition FileExists (root : node) (s : Storage)
  (modelID sha filename : string) : option FileInfo * bool :=
  let modelPath := Utils.ConvertModelIDToHFPath modelID in
  let filePath := Join (baseDir s) [modelPath; "snapshots"; sha; filename] in
  match Stat root filePath with
  | Ok info => (Some info, true)
  | Err _ => (None, false)
  end.

Definition ListFiles (root : node) (s : Storage) (modelID : string)
  : result error (list string) :=
  let modePath := Utils.ConvertModelIDToHFPath modelID in
  let modelDir := Join (baseDir s) [modePath] in
  if notExist (Stat root modelDir) then Err (ModelNotFound modelID)
  else
    match ReadDir root modelDir with
    | Err e => Err (ReadDirectoryFailed e)
    | Ok entries =>
        Ok (fold_left
              (fun files entry =>
                 if negb (IsDir entry) then files ++ [Name entry] else files)
              entries [])
    end.

Definition getRepoSha (root : node) (s : Storage) (modelID version : string)
  : result error string :=
  let modePath := Utils.ConvertModelIDToHFPath modelID in
  let versionFilePath := Join (baseDir s) [modePath; "refs"; version] in
  match Stat root versionFilePath with
  | Err _ => Err (VersionFileNotFound versionFilePath)
  | Ok _ =>
      match ReadFile root versionFilePath with
      | Err e => Err (ReadVersionFileFailed e)
      | Ok data => Ok (string_of_list_byte data)
      end
  end.

(** The callback [buildModelIndex] hands to [filepath.WalkDir]; its
    state is the pair of captured variables [totalSize] and [fileList]. *)
Definition walkFn (root : node) (s : Storage) (modePath : string)
  (modelDir : path) (p : path) (d : result errno DirEntry)
  (st : Z * list Sibling) : (Z * list Sibling) * option errno :=
  match d with
  | Err err => (st, Some err)
  | Ok d =>
      if IsDir d then (st, None)
      else
        let info := d in
        let fileList := snd st ++ [mkSibling (Name d)] in
        if Z.eqb (Z.land (Mode info) ModeSymlink) 0
        then ((wrap64 (fst st + Size info), fileList), None)
        else
          match Readlink root (Join modelDir [Name d]) with
          | Err err => ((fst st, fileList), Some err)
          | Ok target =>
              let etag := SplitFile target in
              let absPath := Join (baseDir s) [modePath; "blobs"; etag] in
              match Stat root absPath with
              | Err err => ((fst st, fileList), Some err)
              | Ok targetInfo =>
                  ((wrap64 (fst st + Size targetInfo), fileList), None)
              end
          end
  end.

Section Index.
(** Successive readings of the wall clock, and [json.Unmarshal] into a
    [Model]. *)
Variable clock : nat -> Time.
Variable Unmarshal : list byte -> option Model.

Definition buildModelIndex (root : node) (s : Storage)
  (modelID version : string) : result error Model :=
  let author := hd "" (Strings.Split modelID Utils.slash) in
  let modePath := Utils.ConvertModelIDToHFPath modelID in
  match getRepoSha root s modelID version with
  | Err err => Err err
  | Ok sha =>
      let modelDir := Join (baseDir s) [modePath; "snapshots"; sha] in
      match WalkDir (walkFn root s modePath modelDir) root modelDir (0%Z, [])
      with
      | (_, Some err) => Err (PathError err)
      | ((totalSize, fileList), None) =>
          Ok (mkModel modelID modelID author sha (clock 0) false (clock 1)
                      totalSize fileList)
      end
  end.

Definition RepoInfo (root : node) (s : Storage) (modelID version : string)
  : result error Model :=
  let modePath := Utils.ConvertModelIDToHFPath modelID in
  let modelIndexPath := Join (baseDir s) [modePath; ".modeindex"] in
  match Stat root modelIndexPath with
  | Err err =>
      if IsNotExist err
      then buildModelIndex root s modelID version
      else Err (ModelIndexNotFound modelID)
  | Ok _ =>
      match ReadFile root modelIndexPath with
      | Err err => Err (ReadModelIndexFailed err)
      | Ok data =>
          match Unmarshal data with
          | None => Err UnmarshalFailed
          | Some model => Ok model
          end
      end
  end.
End Index.

Definition FileEtag (root : node) (s : Storage)
  (modelID sha filename : string) : string :=
  let modelPath := Utils.ConvertModelIDToHFPath modelID in
  let filePath := Join (baseDir s) [modelPath; "snapshots"; sha; filename] in
  match Readlink root filePath with
  | Err _ => ""
  | Ok targetPath =>
      let absPath := Abs targetPath in
      SplitFile absPath
  end.

(** The errors of the calls that store, fetch and delete single files. *)
Inductive fileError : Type :=
| CreateModelDirectoryFailed (e : errno)
| CreateDirectoryFailed (e : errno)
| CreateFileFailed (e : errno)
| WriteFileFailed (e : errno)
| NoSuchFile (modelID filename : string)
| OpenFileFailed (e : errno)
| DeleteFileFailed (e : errno).

(** [StoreFile]; the content arrives as the deliveries of a reader. *)
Definition StoreFile (root : node) (s : Storage) (modelID filename : string)
  (content : list (list byte)) : node * result fileError path :=
  let modelDir := Join (baseDir s) [modelID] in
  match MkdirAll root modelDir with
  | (root1, Some err) => (root1, Err (CreateModelDirectoryFailed err))
  | (root1, None) =>
      let filePath := Join modelDir [filename] in
      match MkdirAll root1 (removelast filePath) with
      | (root2, Some err) => (root2, Err (CreateDirectoryFailed err))
      | (root2, None) =>
          match Create root2 filePath with
          | (root3, Err err) => (root3, Err (CreateFileFailed err))
          | (root3, Ok file) =>
              match Copy root3 file content 0%Z with
              | ((root4, _), (_, Some err)) => (root4, Err (WriteFileFailed err))
              | ((root4, _), (_, None)) => (root4, Ok filePath)
              end
          end
      end
  end.

Definition GetFile (root : node) (s : Storage) (modelID sha filename : string)
  : result fileError File :=
  let modelPath := Utils.ConvertModelIDToHFPath modelID in
  let filePath := Join (baseDir s) [modelPath; "snapshots"; sha; filename] in
  if notExist (Stat root filePath) then Err (NoSuchFile modelID filename)
  else
    match Open root filePath with
    | Err err => Err (OpenFileFailed err)
    | Ok file => Ok file
    end.

Definition DeleteFile (root : node) (s : Storage) (modelID filename : string)
  : node * option fileError :=
  let filePath := Join (baseDir s) [modelID; filename] in
  match Remove root filePath with
  | (root', Some err) => (root', Some (DeleteFileFailed err))
  | (root', None) => (root', None)
  end.

End Filestorage.

(* ===================================================================== *)
(** ** pkg/api/model and the file-storage distribution *)
(* ===================================================================== *)

Module ApiModel.

Record SiblingFile : Type := mkSiblingFile { RFilename : string }.

Record ModelIndexInfo : Type := mkModelIndexInfo {
  ID : string;
  ModelID : string;
  Author : string;
  SHA : string;
  LastModified : Filestorage.Time;
  Disabled : bool;
  CreatedAt : Filestorage.Time;
  UsedStorage : Z;
  Siblings : list SiblingFile
}.

End ApiModel.

Module Distribution.
Import Filepath OS.

Record Distribution : Type := mkDistribution {
  Storage : Filestorage.Storage
}.

Definition FileExists (root : node) (d : Distribution)
  (modelID sha filename : string) : option FileInfo * bool :=
  Filestorage.FileExists root (Storage d) modelID sha filename.

Definition ListFiles (root : node) (d : Distribution) (modelID : string)
  : result Filestorage.error (list string) :=
  Filestorage.ListFiles root (Storage d) modelID.

Definition GetStorageInfo (root : node) (d : Distribution) (modelID : string)
  : result Filestorage.error Z :=
  let modelDir := Join (Filestorage.baseDir (Storage d)) [modelID] in
  if notExist (Stat root modelDir)
  then Err (Filestorage.ModelNotFound modelID)
  else
    match ListFiles root d modelID with
    | Err err => Err err
    | Ok files =>
        Ok (fold_left
              (fun totalSize file =>
                 let filePath := Join modelDir [file] in
                 match Stat root filePath with
                 | Ok info => wrap64 (totalSize + Size info)
                 | Err _ => totalSize
                 end)
              files 0%Z)
    end.

Section Index.
Variable clock : nat -> Filestorage.Time.
Variable Unmarshal : list byte -> option Filestorage.Model.

Definition RepoInfo (root : node) (d : Distribution)
  (modelID version : string)
  : result Filestorage.error ApiModel.ModelIndexInfo :=
  match Filestorage.RepoInfo clock Unmarshal root (Storage d) modelID version
  with
  | Err err => Err err
  | Ok mode =>
      let siblings :=
        map (fun sibling =>
               ApiModel.mkSiblingFile (Filestorage.Rfilename sibling))
            (Filestorage.Siblings mode) in
      Ok (ApiModel.mkModelIndexInfo
            (Filestorage.ID mode) (Filestorage.ModelID mode)
            (Filestorage.Author mode) (Filestorage.SHA mode)
            (Filestorage.LastModified mode) (Filestorage.Disabled mode)
            (Filestorage.CreatedAt mode) (Filestorage.UsedStorage mode)
            siblings)
  end.
End Index.

Definition FileEtag (root : node) (d : Distribution)
  (modelID sha filename : string) : string :=
  Filestorage.FileEtag root (Storage d) modelID sha filename.

Definition RepoSha (root : node) (d : Distribution)
  (modelID version : string) : string :=
  match Filestorage.getRepoSha root (Storage d) modelID version with
  | Err _ => version
  | Ok sha => sha
  end.

Definition StoreFile (root : node) (d : Distribution)
  (modelID filename : string) (content : list (list byte))
  : node * result Filestorage.fileError path :=
  Filestorage.StoreFile root (Storage d) modelID filename content.

Definition GetFile (root : node) (d : Distribution)
  (modelID sha filename : string) : result Filestorage.fileError File :=
  Filestorage.GetFile root (Storage d) modelID sha filename.

End Distribution.

(* ===================================================================== *)
(** ** pkg/proxy: hf_proxy.go *)
(* ===================================================================== *)

Module Proxy.
Import OS.

(** *** Calls that change the file system *)

Definition M (A : Type) : Type := node -> node * A.

Definition ret {A} (a : A) : M A := fun root => (root, a).

Definition bind {A B} (c : M A) (k : A -> M B) : M B :=
  fun root => let (root', a) := c root in k a root'.

Definition read {A} (f : node -> A) : M A := fun root => (root, f root).

Definition when (b : bool) (c : M unit) : M unit := if b then c else ret tt.

Definition ignore {A} (c : M A) : M unit := bind c (fun _ => ret tt).

Declare Scope fs_scope.
Delimit Scope fs_scope with fs.
Notation "x <- c ;; k" := (bind c (fun x => k))
  (at level 61, c at next level, right associativity) : fs_scope.
Notation "c ;;; k" := (bind c (fun _ => k))
  (at level 61, right associativity) : fs_scope.
Local Open Scope fs_scope.

(** *** Requests and responses *)

(** A Go [map[string]string] read by index, and [http.Header.Get]: the
    empty string when the key is missing.  Header names are kept in the
    spelling the program asks for them in. *)
Fixpoint Get (m : list (string * string)) (key : string) : string :=
  match m with
  | [] => ""
  | (k, v) :: m' => if String.eqb k key then v else Get m' key
  end.

Record Request : Type := mkRequest {
  Method : string;
  Vars : list (string * string)
}.

Record Response : Type := mkResponse {
  Header : list (string * string);
  Request_ : Request
}.

(** [bufferPool.New]. *)
Definition newBuffer : list byte := repeat x00 (64 * 1024).

(** The [sync.Pool] of buffers.  A [[]byte] is a reference: two slices
    that name one backing array see each other's writes.  [arrays] holds
    the backing arrays made so far, by address, and [idle] the addresses
    that lie in the pool. *)
Module Pool.

Record Pool : Type := mkPool {
  arrays : list (list byte);
  idle : list nat
}.

Definition empty : Pool := mkPool [] [].

(** [Get]: a buffer is taken out of the pool, or [New] makes one when
    the pool is empty.  [sync.Pool] leaves open which idle buffer a
    caller gets; the one put back last is what a goroutine gets that runs
    where the [Put] ran. *)
Definition Get (bp : Pool) : Pool * nat :=
  match idle bp with
  | a :: rest => (mkPool (arrays bp) rest, a)
  | [] => (mkPool (arrays bp ++ [newBuffer]) [], List.length (arrays bp))
  end.

(** [Put]: the buffer is in the pool again, whoever still holds it. *)
Definition Put (bp : Pool) (a : nat) : Pool :=
  mkPool (arrays bp) (a :: idle bp).

(** The content of the backing array at an address, and its update. *)
Definition load (bp : Pool) (a : nat) : list byte := nth a (arrays bp) [].

Fixpoint update (l : list (list byte)) (a : nat) (content : list byte)
  : list (list byte) :=
  match l, a with
  | [], _ => []
  | _ :: rest, O => content :: rest
  | x :: rest, S a' => x :: update rest a' content
  end.

Definition store (bp : Pool) (a : nat) (content : list byte) : Pool :=
  mkPool (update (arrays bp) a content) (idle bp).

End Pool.

Record Proxy : Type := mkProxy {
  FallbackProxy : bool;
  baseDir : Filepath.path;
  bufferPool : Pool.Pool
}.

Definition withPool (p : Proxy) (bp : Pool.Pool) : Proxy :=
  mkProxy (FallbackProxy p) (baseDir p) bp.

Definition quote : ascii := ascii_of_nat 34.

Definition getCommitAndEtag (res : Response) : string * string :=
  let commitHash := Get (Header res) "x-repo-commit" in
  let etag := Get (Header res) "x-linked-etag" in
  let etag := if Nat.eqb (String.length etag) 0
              then Get (Header res) "etag" else etag in
  let etag := Strings.ReplaceAll etag quote "" in
  (commitHash, etag).

Definition path (p : Proxy) (modelID : string) : M Filepath.path :=
  let dir := Filepath.Join (baseDir p)
               ["hub"; Utils.ConvertModelIDToHFPath modelID] in
  missing <- read (fun root => notExist (Stat root dir)) ;;
  when missing (ignore (fun root => MkdirAll root dir)) ;;;
  ret dir.

(** Modelled from the spec: [symlinkOrRename] is called by
    [CreateModelFile] but its definition is not among the sources.  The
    spec (Snapshot Index, materialize) says that it "creates the
    indirection entry pointing at the blob, replacing any existing entry
    at that path"; the entry is a symbolic link whose target is the
    blob's path. *)
Definition symlinkOrRename (src dst : Filepath.path) : M (option errno) :=
  ignore (fun root => Remove root dst) ;;;
  (fun root => Symlink root src dst).

Definition CreateModelFile (p : Proxy) (resp : Response) (r : Request)
  : M (result errno File) :=
  let vars := Vars r in
  let modelID := Get vars "model_id" in
  let filename := Get vars "filename" in
  let (commit, etag) := getCommitAndEtag resp in
  dir <- path p modelID ;;
  let blobDir := Filepath.Join dir ["blobs"] in
  missing <- read (fun root => notExist (Stat root blobDir)) ;;
  when missing (ignore (fun root => MkdirAll root blobDir)) ;;;
  let blobPath := Filepath.Join blobDir [etag] in
  file <- (fun root => Create root blobPath) ;;
  dir <- path p modelID ;;
  let destDir := Filepath.Join dir ["snapshots"; commit] in
  missing <- read (fun root => notExist (Stat root destDir)) ;;
  when missing (ignore (fun root => MkdirAll root destDir)) ;;;
  let destfile := Filepath.Join destDir [filename] in
  ignore (symlinkOrRename blobPath destfile) ;;;
  ret file.

Definition CreateModelIndexFile (p : Proxy) (r : Request)
  : M (result errno File) :=
  let vars := Vars r in
  let modelID := Get vars "model_id" in
  let version := Get vars "version" in
  dir <- path p modelID ;;
  let modelIndexPath := Filepath.Join dir [".modeindex"] in
  present <- read (fun root => isOk (Stat root modelIndexPath)) ;;
  when present (ignore (fun root => Remove root modelIndexPath)) ;;;
  file <- (fun root => Create root modelIndexPath) ;;
  dir <- path p modelID ;;
  let versionFileDir := Filepath.Join dir ["refs"] in
  missing <- read (fun root => notExist (Stat root versionFileDir)) ;;
  when missing (ignore (fun root => MkdirAll root versionFileDir)) ;;;
  let versionFilePath := Filepath.Join versionFileDir [version] in
  ignore (fun root => Create root versionFilePath) ;;;
  ret file.

(** *** The streaming tee *)

Section StreamWriter.
(** An [io.Writer]: a sink with its state, answering every [Write]
    with the number of bytes taken and an error or [nil]. *)
Context {W E : Type}.
Variable write : W -> list byte -> W * (Z * option E).

Record streamWriter : Type := mkStreamWriter {
  writer : W;
  buffer : list byte
}.

(** The builtin [copy(dst, src)]: the new content of [dst] and the
    number of bytes copied. *)
Definition copy (dst src : list byte) : list byte * nat :=
  let n := Nat.min (List.length dst) (List.length src) in
  (firstn n src ++ skipn n dst, n).

(** The loop of [streamWriter.Write], from the state in which [written]
    bytes have been counted. *)
Equations? writeLoop (sw : streamWriter) (p : list byte) (written : Z)
  : streamWriter * (Z * option E) by wf (List.length p) lt :=
  writeLoop sw [] written := (sw, (written, None));
  writeLoop sw (b :: p') written with copy (buffer sw) (b :: p') := {
    | (buf, O) := (mkStreamWriter (writer sw) buf, (written, None));
    | (buf, S k) with write (writer sw) (firstn (S k) buf) := {
        | (w, (wn, Some werr)) :=
            (mkStreamWriter w buf, (wrap64 (written + wn), Some werr));
        | (w, (wn, None)) :=
            writeLoop (mkStreamWriter w buf) (skipn (S k) (b :: p'))
                      (wrap64 (written + wn)) } }.
Proof.
  simpl. pose proof (length_skipn k p'). lia.
Qed.

Definition Write (sw : streamWriter) (p : list byte)
  : streamWriter * (Z * option E) :=
  writeLoop sw p 0%Z.

(** One [Read] of [io.TeeReader] that got [chunk] from upstream: the
    chunk goes to the tee target, and the reader is told how many bytes
    it may use. *)
Definition teeRead (sw : streamWriter) (chunk : list byte)
  : streamWriter * (Z * option E) :=
  let n := Z.of_nat (List.length chunk) in
  if Z.ltb 0 n
  then match Write sw chunk with
       | (sw', (n', Some err)) => (sw', (n', Some err))
       | (sw', (_, None)) => (sw', (n, None))
       end
  else (sw, (n, None)).

(** The reverse proxy handing the body to the client: each chunk read
    through the tee is appended to what the client has received, and
    the first error ends the copy. *)
Fixpoint copyBuffer (sw : streamWriter) (chunks : list (list byte))
  (client : list byte) : (streamWriter * list byte) * option E :=
  match chunks with
  | [] => ((sw, client), None)
  | chunk :: chunks' =>
      match teeRead sw chunk with
      | (sw', (nr, rerr)) =>
          let client' := client ++ firstn (Z.to_nat nr) chunk in
          match rerr with
          | Some err => ((sw', client'), Some err)
          | None => copyBuffer sw' chunks' client'
          end
      end
  end.
End StreamWriter.

Arguments streamWriter W : clear implicits.

(** The cache file as an [io.Writer]: the file system together with the
    open file. *)
Definition fileWriter (w : node * File) (bytes : list byte)
  : (node * File) * (Z * option errno) :=
  FileWrite (fst w) (snd w) bytes.

(** What [WithModifyResponseToCache] has set up when it returns [nil]. *)
Inductive interception : Type :=
| Untouched
| Spawned (location : string)
| Teed (f : File) (buf : nat).

(** [WithModifyResponseToCache].  For a [HEAD] response with a [Location]
    a goroutine is started that copies from the location; for the other
    methods the cache file is created and the body is wrapped in a tee
    whose [streamWriter] writes to the file through a buffer from the
    pool.  The deferred [Put] runs when the hook returns: the buffer is
    back in the pool while the tee, which has yet to see the body, keeps
    it. *)
Definition WithModifyResponseToCache (p : Proxy) (resp : Response)
  : M (Proxy * result errno interception) :=
  if String.eqb (Method (Request_ resp)) "HEAD" then
    let location := Get (Header resp) "Location" in
    if negb (String.eqb location "")
    then ret (p, Ok (Spawned location))
    else ret (p, Ok Untouched)
  else
    let vars := Vars (Request_ resp) in
    let shaOrVersion := Get vars "sha" in
    f <- (if String.eqb shaOrVersion ""
          then CreateModelIndexFile p (Request_ resp)
          else CreateModelFile p resp (Request_ resp)) ;;
    match f with
    | Err err => ret (p, Err err)
    | Ok f =>
        let (bp, buf) := Pool.Get (bufferPool p) in
        ret (withPool p (Pool.Put bp buf), Ok (Teed f buf))
    end.

(** The goroutine started for a [HEAD] response with a [Location]: the
    cache file is created and what [http.Get] on the location gives is
    copied into it.  [fetched] is the body that arrives, in the pieces
    [io.Copy] reads, or nothing when the fetch fails. *)
Definition captureLocation (p : Proxy) (resp : Response)
  (fetched : option (list (list byte))) : M unit :=
  f <- CreateModelFile p resp (Request_ resp) ;;
  match f with
  | Err _ => ret tt
  | Ok f =>
      match fetched with
      | None => ret tt
      | Some chunks => ignore (fun root => let (w, r) := Copy root f chunks 0%Z in
                                           (fst w, r))
      end
  end.

(** What one exchange leaves behind: the proxy with its pool, the
    location a background copy has been started for, and what the client
    was sent. *)
Record served : Type := mkServed {
  proxy' : Proxy;
  spawned : option string;
  client : result errno (list byte)
}.

(** A whole exchange while no other is under way: the response is
    intercepted and its body, arriving as [chunks], is copied to the
    client.  When the interception fails the reverse proxy answers with
    its error page instead of the body. *)
Definition ServeHTTP (p : Proxy) (resp : Response)
  (chunks : list (list byte)) (root : node) : node * served :=
  match WithModifyResponseToCache p resp root with
  | (root', (p', Ok (Teed f buf))) =>
      match copyBuffer fileWriter
              (mkStreamWriter (root', f) (Pool.load (bufferPool p') buf))
              chunks []
      with
      | ((sw, sent), _) =>
          (fst (writer sw),
           mkServed (withPool p' (Pool.store (bufferPool p') buf (buffer sw)))
                    None (Ok sent))
      end
  | (root', (p', Ok (Spawned location))) =>
      (root', mkServed p' (Some location) (Ok (List.concat chunks)))
  | (root', (p', Ok Untouched)) =>
      (root', mkServed p' None (Ok (List.concat chunks)))
  | (root', (p', Err err)) => (root', mkServed p' None (Err err))
  end.

(** *** Exchanges that overlap *)

(** The reverse proxy serves every request in a goroutine of its own.
    The goroutines share the file system and the proxy with its pool;
    each has its open file and its place in the program.  One step is
    one statement of [streamWriter.Write], or one of the calls around
    it. *)

Section Statements.
Context {W E : Type}.
Variable write : W -> list byte -> W * (Z * option E).

(** The places in [streamWriter.Write]: at the head of the loop, between
    [copy] and the [Write] of the underlying writer, and at the
    return. *)
Inductive writing : Type :=
| AtLoop (p : list byte) (written : Z)
| AtWrite (p : list byte) (written : Z) (copySize : nat)
| Returned (n : Z) (err : option E).

(** One statement of [streamWriter.Write], on the present content
    [array] of the buffer. *)
Definition writeStep (array : list byte) (w : W) (s : writing)
  : (list byte * W) * writing :=
  match s with
  | AtLoop [] written => ((array, w), Returned written None)
  | AtLoop (b :: p') written =>
      match copy array (b :: p') with
      | (array', O) => ((array', w), Returned written None)
      | (array', S k) => ((array', w), AtWrite (b :: p') written (S k))
      end
  | AtWrite p written copySize =>
      match write w (firstn copySize array) with
      | (w', (wn, Some werr)) =>
          ((array, w'), Returned (wrap64 (written + wn)) (Some werr))
      | (w', (wn, None)) =>
          ((array, w'), AtLoop (skipn copySize p) (wrap64 (written + wn)))
      end
  | Returned n err => ((array, w), Returned n err)
  end.

Fixpoint writeSteps (n : nat) (array : list byte) (w : W) (s : writing)
  : (list byte * W) * writing :=
  match n with
  | O => ((array, w), s)
  | S n' =>
      match writeStep array w s with
      | ((array', w'), s') => writeSteps n' array' w' s'
      end
  end.
End Statements.

Arguments writing E : clear implicits.

(** A goroutine: a response that the hook has yet to see, with the body
    that will arrive; the copy to the client between two reads of the
    tee; a read of the tee inside [streamWriter.Write]; the background
    copy from a location; and the end, with what the client was sent. *)
Inductive goroutine : Type :=
| Arrived (resp : Response) (chunks : list (list byte))
| Reading (f : File) (buf : nat) (chunks : list (list byte))
    (sent : list byte)
| Teeing (f : File) (buf : nat) (chunk : list byte) (s : writing errno)
    (chunks : list (list byte)) (sent : list byte)
| Fetching (resp : Response) (fetched : option (list (list byte)))
| Finished (sent : result errno (list byte))
| Ended.

Record world : Type := mkWorld {
  fs : node;
  proxy : Proxy;
  goroutines : list goroutine
}.

Section Overlap.
(** What [http.Get] gives for a location. *)
Variable upstream : string -> option (list (list byte)).

(** One step of a goroutine: the file system and the proxy afterwards,
    the goroutine afterwards, and the goroutine it has started. *)
Definition step (root : node) (p : Proxy) (g : goroutine)
  : (node * Proxy) * (goroutine * option goroutine) :=
  match g with
  | Arrived resp chunks =>
      match WithModifyResponseToCache p resp root with
      | (root', (p', Ok (Teed f buf))) =>
          ((root', p'), (Reading f buf chunks [], None))
      | (root', (p', Ok (Spawned location))) =>
          ((root', p'),
           (Finished (Ok (List.concat chunks)),
            Some (Fetching resp (upstream location))))
      | (root', (p', Ok Untouched)) =>
          ((root', p'), (Finished (Ok (List.concat chunks)), None))
      | (root', (p', Err err)) => ((root', p'), (Finished (Err err), None))
      end
  | Reading f buf [] sent => ((root, p), (Finished (Ok sent), None))
  | Reading f buf (chunk :: chunks) sent =>
      if Z.ltb 0 (Z.of_nat (List.length chunk))
      then ((root, p), (Teeing f buf chunk (AtLoop chunk 0%Z) chunks sent, None))
      else ((root, p), (Reading f buf chunks (sent ++ chunk), None))
  | Teeing f buf chunk (Returned n (Some err)) chunks sent =>
      ((root, p), (Finished (Ok (sent ++ firstn (Z.to_nat n) chunk)), None))
  | Teeing f buf chunk (Returned n None) chunks sent =>
      ((root, p), (Reading f buf chunks (sent ++ chunk), None))
  | Teeing f buf chunk s chunks sent =>
      match writeStep fileWriter (Pool.load (bufferPool p) buf) (root, f) s
      with
      | ((array, (root', f')), s') =>
          ((root', withPool p (Pool.store (bufferPool p) buf array)),
           (Teeing f' buf chunk s' chunks sent, None))
      end
  | Fetching resp fetched =>
      ((fst (captureLocation p resp fetched root), p), (Ended, None))
  | Finished sent => ((root, p), (Finished sent, None))
  | Ended => ((root, p), (Ended, None))
  end.

Fixpoint replace (gs : list goroutine) (i : nat) (g : goroutine)
  : list goroutine :=
  match gs, i with
  | [], _ => []
  | _ :: rest, O => g :: rest
  | x :: rest, S i' => x :: replace rest i' g
  end.

(** The goroutine with number [i] takes one step. *)
Definition turn (w : world) (i : nat) : world :=
  match nth_error (goroutines w) i with
  | None => w
  | Some g =>
      match step (fs w) (proxy w) g with
      | ((root', p'), (g', started)) =>
          mkWorld root' p'
            (replace (goroutines w) i g'
             ++ match started with Some g0 => [g0] | None => [] end)
      end
  end.

(** A run: the goroutines take their steps in the order the scheduler
    picks. *)
Definition run (w : world) (schedule : list nat) : world :=
  fold_left turn schedule w.
End Overlap.

End Proxy.

(* ===================================================================== *)
(** ** pkg/server: the handler of file requests *)
(* ===================================================================== *)

Module Server.
Import OS.

Record Server : Type := mkServer {
  distribution : Distribution.Distribution
}.

(** [http.Header.Set]: the value of the key is replaced, or the key is
    added. *)
Fixpoint Set_ (h : list (string * string)) (key value : string)
  : list (string * string) :=
  match h with
  | [] => [(key, value)]
  | (k, v) :: h' =>
      if String.eqb k key then (key, value) :: h'
      else (k, v) :: Set_ h' key value
  end.

(** [strconv.FormatInt] in base ten. *)
Definition FormatInt (z : Z) : string :=
  DecimalString.NilZero.string_of_int (Z.to_int z).

(** How a handler ends: with [http.Error], with the headers alone, or by
    handing the open file to [http.ServeContent]. *)
Inductive reply : Type :=
| Error (status : Z) (message : string)
| HeaderOnly (header : list (string * string))
| ServeContent (header : list (string * string)) (name : string)
    (content : File).

Definition StatusNotFound : Z := 404.
Definition StatusInternalServerError : Z := 500.

Definition handleGetModelFile (root : node) (s : Server) (r : Proxy.Request)
  : reply :=
  let vars := Proxy.Vars r in
  let modelID := Proxy.Get vars "model_id" in
  let shaOrVersion := Proxy.Get vars "sha" in
  let filename := Proxy.Get vars "filename" in
  let sha := Distribution.RepoSha root (distribution s) modelID shaOrVersion in
  match Distribution.FileExists root (distribution s) modelID sha filename with
  | (Some fileInfo, true) =>
      let etga := Distribution.FileEtag root (distribution s) modelID sha
                    filename in
      let header := Set_ [] "X-Repo-Commit" sha in
      let header := Set_ header "ETag" etga in
      let header :=
        Set_ header "Content-Disposition"
             ("inline; filename=" ++ String Proxy.quote
                (Name fileInfo ++ String Proxy.quote ""))%string in
      let header := Set_ header "Content-Type" "text/plain; charset=utf-8" in
      let header := Set_ header "Content-Length" (FormatInt (Size fileInfo)) in
      if String.eqb (Proxy.Method r) "HEAD" then HeaderOnly header
      else
        match Distribution.GetFile root (distribution s) modelID sha filename
        with
        | Err _ => Error StatusInternalServerError "Failed to get file"
        | Ok file => ServeContent header (Name fileInfo) file
        end
  | _ => Error StatusNotFound "File not found"
  end.

End Server.

(* ===================================================================== *)
(** ** Sample caches and exchanges *)
(* ===================================================================== *)

Module Scenario.
Import Filepath OS.

Definition bytes (s : string) : list byte := list_byte_of_string s.

(** The default [-file-base-dir]. *)
Definition cacheRoot : path := ["tmp"; "LLMDistribution"].

Definition proxy : Proxy.Proxy :=
  Proxy.mkProxy true cacheRoot Proxy.Pool.empty.

Definition storage : Filestorage.Storage :=
  Filestorage.mkStorage (Join cacheRoot ["hub"]).

Definition dist : Distribution.Distribution :=
  Distribution.mkDistribution storage.

Definition inCache (hub : list (string * node)) : node :=
  NDir [("tmp", NDir [("LLMDistribution", NDir [("hub", NDir hub)])])].

(** A cache root in which nothing has been stored yet. *)
Definition fresh : node :=
  NDir [("tmp", NDir [("LLMDistribution", NDir [])])].

Definition blobPath (etag : string) : path :=
  Join cacheRoot ["hub"; "models--acme--foo"; "blobs"; etag].

(** A cache of [acme/foo] in the shared layout: revision [main] is
    content set [abc123], which holds one indirection and one plain
    file. *)
Definition snapshot : list (string * node) :=
  [("README.md", NFile (bytes "# foo"));
   ("config.json", NSymlink (blobPath "deadbeef"))].

Definition populated : node :=
  inCache
    [("models--acme--foo",
      NDir [("blobs", NDir [("deadbeef", NFile (bytes "hello world"))]);
            ("refs", NDir [("main", NFile (bytes "abc123"))]);
            ("snapshots", NDir [("abc123", NDir snapshot)])])].

(** The same cache with the index of the model persisted. *)
Definition capturedDir : list (string * node) :=
  [(".modeindex", NFile (bytes "{}"));
   ("blobs", NDir [("deadbeef", NFile (bytes "hello world"))]);
   ("refs", NDir [("main", NFile (bytes "abc123"))]);
   ("snapshots", NDir [("abc123", NDir snapshot)])].

Definition captured : node :=
  inCache [("models--acme--foo", NDir capturedDir)].

(** A cache whose snapshot keeps an indirection inside a subdirectory, as
    the hub's own tools lay out a file named [onnx/model.onnx]. *)
Definition nested : node :=
  inCache
    [("models--acme--foo",
      NDir [("blobs", NDir [("deadbeef", NFile (bytes "hello world"))]);
            ("refs", NDir [("main", NFile (bytes "abc123"))]);
            ("snapshots",
             NDir [("abc123",
                    NDir [("onnx",
                           NDir [("model.onnx",
                                  NSymlink (blobPath "deadbeef"))])])])])].

(** The same cache after the blob has gone. *)
Definition dangling : node :=
  inCache
    [("models--acme--foo",
      NDir [("blobs", NDir []);
            ("refs", NDir [("main", NFile (bytes "abc123"))]);
            ("snapshots", NDir [("abc123", NDir snapshot)])])].

(** A model directory that holds a persisted index and nothing else. *)
Definition indexBody : list byte := bytes "{}".

Definition indexed : node :=
  inCache [("models--acme--foo", NDir [(".modeindex", NFile indexBody)])].

(** The same, next to a directory named by the plain identifier. *)
Definition indexedBoth : node :=
  inCache [("acme", NDir [("foo", NDir [])]);
           ("models--acme--foo", NDir [(".modeindex", NFile indexBody)])].

(** A model directory without index and without refs. *)
Definition unresolved : node :=
  inCache [("models--acme--foo", NDir [("snapshots", NDir [])])].

(** A clock that ticks at every reading, and a decoder that rejects
    every document. *)
Definition clock (n : nat) : Filestorage.Time := Z.of_nat n.

Definition Unmarshal (data : list byte) : option Filestorage.Model := None.

(** The document synthesized for [populated] at revision [main]. *)
Definition synthesized : Filestorage.Model :=
  Filestorage.mkModel "acme/foo" "acme/foo" "acme" "abc123" 0%Z false 1%Z
    16%Z [Filestorage.mkSibling "README.md";
          Filestorage.mkSibling "config.json"].

Definition quoted (s : string) : string :=
  String Proxy.quote (s ++ String Proxy.quote "")%string.

(** [GET /api/models/acme/foo/revision/main] and its answer. *)
Definition indexRequest : Proxy.Request :=
  Proxy.mkRequest "GET" [("model_id", "acme/foo"); ("version", "main")].

Definition indexResponse (commit : string) : Proxy.Response :=
  Proxy.mkResponse [("x-repo-commit", commit)] indexRequest.

(** [GET /acme/foo/resolve/abc123/config.json] and two answers, one with
    a linked etag and one with a weak etag. *)
Definition fileRequest : Proxy.Request :=
  Proxy.mkRequest "GET" [("model_id", "acme/foo"); ("sha", "abc123");
                         ("filename", "config.json")].

Definition fileResponse : Proxy.Response :=
  Proxy.mkResponse [("x-repo-commit", "abc123");
                    ("x-linked-etag", quoted "deadbeef")] fileRequest.

Definition weakResponse : Proxy.Response :=
  Proxy.mkResponse [("x-repo-commit", "abc123");
                    ("etag", ("W/" ++ quoted "deadbeef")%string)] fileRequest.

(** [GET /api/models/acme/bar/revision/main] and its answer: the index of
    a second model. *)
Definition barRequest : Proxy.Request :=
  Proxy.mkRequest "GET" [("model_id", "acme/bar"); ("version", "main")].

Definition barResponse : Proxy.Response :=
  Proxy.mkResponse [("x-repo-commit", "def456")] barRequest.

(** No location can be fetched. *)
Definition unreachable (location : string) : option (list (list byte)) :=
  None.

(** Two index responses have arrived and neither has been intercepted
    yet; the body of each comes in one piece. *)
Definition fooBody : list byte := bytes "index of foo".
Definition barBody : list byte := bytes "index of bar".

Definition overlapping : Proxy.world :=
  Proxy.mkWorld fresh proxy
    [Proxy.Arrived (indexResponse "abc123") [fooBody];
     Proxy.Arrived barResponse [barBody]].

(** The steps of one such exchange, and two ways of scheduling two of
    them: one after the other, and in turns. *)
Definition inTurns : list nat := [0; 1; 0; 1; 0; 1; 0; 1; 0; 1; 0; 1; 0; 1].

Definition oneByOne : list nat := [0; 0; 0; 0; 0; 0; 0; 1; 1; 1; 1; 1; 1; 1].

(** [HEAD /acme/foo/resolve/abc123/config.json] answered with a redirect,
    and a hub whose every location gives the same body. *)
Definition headResponse : Proxy.Response :=
  Proxy.mkResponse [("Location", "https://cdn.example/deadbeef");
                    ("x-repo-commit", "abc123");
                    ("x-linked-etag", quoted "deadbeef")]
    (Proxy.mkRequest "HEAD" [("model_id", "acme/foo"); ("sha", "abc123");
                             ("filename", "config.json")]).

Definition reachable (location : string) : option (list (list byte)) :=
  Some [bytes "hello "; bytes "world"].

End Scenario.

(* ===================================================================== *)
(** ** Vocabulary of the statements *)
(* ===================================================================== *)

Section Identifiers.
Import Utils.

(** An identifier uses the separator only as the owner/name delimiter:
    it carries at most one of them. *)
Definition delimiterOnly (modelID : string) : bool :=
  Nat.leb (Strings.Count modelID slash) 1.

(** No dash of the identifier is directly followed by another dash or by
    the separator. *)
Fixpoint dashSafe (s : string) : bool :=
  match s with
  | EmptyString => true
  | String c rest =>
      match rest with
      | EmptyString => true
      | String d _ =>
          negb (Ascii.eqb c dash && (Ascii.eqb d dash || Ascii.eqb d slash))
          && dashSafe rest
      end
  end.

(** Reading an encoded name back, leftmost double dash first.  The
    program has no such function; it is the inverse used to show that
    distinct identifiers get distinct directory names. *)
Fixpoint unescape (s : string) : string :=
  match s with
  | EmptyString => EmptyString
  | String c rest =>
      match rest with
      | EmptyString => String c EmptyString
      | String d rest' =>
          if Ascii.eqb c dash && Ascii.eqb d dash
          then String slash (unescape rest')
          else String c (unescape rest)
      end
  end.

End Identifiers.

Section Vocabulary.
Import Filepath OS.

Definition isFound (l : located) : bool :=
  match l with Found _ _ => true | _ => false end.

Definition isLink (n : node) : bool :=
  match n with NSymlink _ => true | _ => false end.

Definition isDirNode (n : node) : bool :=
  match n with NDir _ => true | _ => false end.

(** The path of the snapshot entry of a file. *)
Definition snapshotEntry (s : Filestorage.Storage)
  (modelID sha filename : string) : path :=
  Join (Filestorage.baseDir s)
       [Utils.ConvertModelIDToHFPath modelID; "snapshots"; sha; filename].

(** What [ListFiles] can see of an entry: its name and whether it is a
    directory. *)
Definition kind (e : string * node) : string * bool :=
  (fst e, isDirNode (snd e)).

(** A name a directory entry can bear: not empty, no separator, neither
    of the two dot entries. *)
Definition properName (c : string) : bool :=
  negb (Strings.ContainsByte c Utils.slash)
  && negb (String.eqb c "") && negb (String.eqb c ".")
  && negb (String.eqb c "..").

Definition pathEqb (p q : path) : bool :=
  if list_eq_dec string_dec p q then true else false.

(** The size of the regular file a path resolves to. *)
Definition blobSize (root : node) (t : path) : option Z :=
  match locate root true t with
  | Found _ (NFile data) => Some (Z.of_nat (List.length data))
  | _ => None
  end.

(** An entry of a snapshot directory as the layout prescribes it: a
    plain file, or an indirection whose target is the path of an
    existing blob of the model. *)
Definition indexable (root : node) (s : Filestorage.Storage)
  (modelID : string) (e : string * node) : bool :=
  properName (fst e)
  && match snd e with
     | NFile _ => true
     | NSymlink t =>
         pathEqb (Join (Filestorage.baseDir s)
                       [Utils.ConvertModelIDToHFPath modelID; "blobs";
                        SplitFile t]) t
         && match blobSize root t with Some _ => true | None => false end
     | NDir _ => false
     end.

(** What an entry contributes to the aggregate size: its own size for a
    plain file, the size of the blob it points to for an indirection. *)
Definition countedSize (root : node) (e : string * node) : Z :=
  match snd e with
  | NFile data => Z.of_nat (List.length data)
  | NSymlink t => match blobSize root t with Some z => z | None => 0%Z end
  | NDir _ => 0%Z
  end.

Definition totalSize (root : node) (es : list (string * node)) : Z :=
  fold_right (fun e acc => (countedSize root e + acc)%Z) 0%Z es.

(** The visit of the entries of one directory by [filepath.WalkDir]. *)
Fixpoint walkEach {St Er : Type}
  (fn : path -> result errno DirEntry -> St -> St * option Er)
  (p : path) (es : list (string * node)) (st : St) : St * option Er :=
  match es with
  | [] => (st, None)
  | (c, x) :: es' =>
      match walkDir fn (Join p [c]) c x st with
      | (st1, Some e) => (st1, Some e)
      | (st1, None) => walkEach fn p es' st1
      end
  end.

End Vocabulary.

Section Sinks.
Context {W E : Type}.
Variable write : W -> list byte -> W * (Z * option E).

(** A sink that also records, in order, the slices it is handed. *)
Definition logged (w : W * list (list byte)) (c : list byte)
  : (W * list (list byte)) * (Z * option E) :=
  match write (fst w) c with
  | (w', r) => ((w', snd w ++ [c]), r)
  end.

(** The contract of [io.Writer]: a write that reports no error has taken
    the whole slice. *)
Definition lawful : Prop :=
  forall w c n, snd (write w c) = (n, None) -> n = Z.of_nat (List.length c).

(** A sink that takes everything and never fails. *)
Definition accepting : Prop :=
  forall w c, snd (write w c) = (Z.of_nat (List.length c), None).

(** The slices fed one after the other. *)
Definition feed (w : W) (pieces : list (list byte)) : W :=
  fold_left (fun w c => fst (write w c)) pieces w.

(** A sink for a byte stream: how the stream is cut into writes does not
    matter. *)
Definition streamSink : Prop :=
  (forall w, fst (write w []) = w) /\
  (forall w a b, fst (write (fst (write w a)) b) = fst (write w (a ++ b))).
End Sinks.

(** A slice that fits a buffer of the given length and is not empty. *)
Definition pieceOf (size : nat) (c : list byte) : Prop :=
  0 < List.length c <= size.

(** An in-memory sink that appends what it is handed. *)
Definition memorySink (w : list byte) (c : list byte)
  : list byte * (Z * option OS.errno) :=
  (w ++ c, (Z.of_nat (List.length c), None)).

(** Every buffer that lies in the pool has room. *)
Definition roomy (bp : Proxy.Pool.Pool) : Prop :=
  Forall (fun a => Proxy.Pool.load bp a <> []) (Proxy.Pool.idle bp).

Section RealPaths.
Import Filepath OS.

(** The node at a real path: a walk that follows no link. *)
Fixpoint get (p : path) (n : node) : option node :=
  match p with
  | [] => Some n
  | c :: p' =>
      match n with
      | NDir es =>
          match child c es with
          | Some x => get p' x
          | None => None
          end
      | _ => None
      end
  end.

(** One entry of the directory at a real path written or replaced. *)
Definition graft (parent : path) (name : string) (x : node) (root : node)
  : node :=
  modify parent (setChild name x) root.

(** Two nodes of the same kind that agree on what a file holds and on where
    a link points. *)
Definition sameKind (n n' : node) : Prop :=
  match n, n' with
  | NFile d, NFile d' => d = d'
  | NSymlink t, NSymlink t' => t = t'
  | NDir _, NDir _ => True
  | _, _ => False
  end.

End RealPaths.

Section Requests.
Import Filepath OS.



End Requests.

(* ===================================================================== *)
(** * Properties *)
(* ===================================================================== *)

(** ** The path codec *)

Section PathCodec.
Import Utils.

Lemma ReplaceAll_slash_empty s :
  Strings.ReplaceAll s slash "--" = "" -> s = "".
Proof.
  destruct s as [|c s]; [reflexivity|]. simpl.
  destruct (Ascii.eqb c slash); discriminate.
Qed.

(** Reading back undoes the escaping on dash-safe identifiers. *)
Lemma unescape_ReplaceAll s :
  dashSafe s = true -> unescape (Strings.ReplaceAll s slash "--") = s.
Proof.
  induction s as [|c s IH]; [reflexivity|].
  intros Hsafe.
  assert (Hrest : dashSafe s = true).
  { simpl in Hsafe. destruct s; [reflexivity|].
    apply andb_true_iff in Hsafe. apply Hsafe. }
  specialize (IH Hrest).
  cbn [Strings.ReplaceAll].
  destruct (Ascii.eqb c slash) eqn:Hc.
  - apply Ascii.eqb_eq in Hc. subst c.
    change (unescape (String dash (String dash (Strings.ReplaceAll s slash "--")))
            = String slash s).
    cbn [unescape]. rewrite Ascii.eqb_refl. simpl. now rewrite IH.
  - destruct s as [|d s'].
    + reflexivity.
    + cbn [unescape].
      destruct (Strings.ReplaceAll (String d s') slash "--") as [|e r] eqn:Hr.
      { apply ReplaceAll_slash_empty in Hr. discriminate. }
      assert (He : Ascii.eqb c dash && Ascii.eqb e dash = false).
      { cbn [dashSafe] in Hsafe. apply andb_true_iff in Hsafe.
        destruct Hsafe as [Hsafe _]. apply negb_true_iff in Hsafe.
        destruct (Ascii.eqb c dash); [|reflexivity]. simpl in *.
        cbn [Strings.ReplaceAll] in Hr.
        destruct (Ascii.eqb d slash) eqn:Hd.
        - rewrite orb_true_r in Hsafe. discriminate.
        - rewrite orb_false_r in Hsafe. injection Hr as <- _. exact Hsafe. }
      rewrite He. now rewrite IH.
Qed.

Lemma ReplaceAll_slash_free s :
  Strings.Count (Strings.ReplaceAll s slash "--") slash = 0.
Proof.
  induction s as [|c s IH]; [reflexivity|].
  cbn [Strings.ReplaceAll]. destruct (Ascii.eqb c slash) eqn:Hc.
  - simpl. exact IH.
  - cbn [Strings.Count]. rewrite Hc. exact IH.
Qed.

(** C5, as the claim states it, fails: two identifiers that use the
    separator only as the owner/name delimiter are sent to the same
    directory name. *)
Lemma ConvertModelIDToHFPath_collision :
  delimiterOnly "a-/b" = true /\ delimiterOnly "a/-b" = true /\
  "a-/b" <> "a/-b" /\
  ConvertModelIDToHFPath "a-/b" = ConvertModelIDToHFPath "a/-b".
Proof. repeat split; try reflexivity. discriminate. Qed.

(** C5 (amended): the encoding is the fixed prefix followed by the
    identifier with every separator replaced by a double dash, the result
    is one flat directory name (it holds no separator), and two distinct
    identifiers that use the separator only as the owner/name delimiter
    and in which no dash is directly followed by a dash or by the
    separator get distinct directory names. *)
Theorem ConvertModelIDToHFPath_injective (x y : string) :
  ConvertModelIDToHFPath x
    = ("models--" ++ Strings.ReplaceAll x slash "--")%string /\
  Strings.ContainsByte (ConvertModelIDToHFPath x) slash = false /\
  (delimiterOnly x = true -> delimiterOnly y = true ->
   dashSafe x = true -> dashSafe y = true ->
   x <> y -> ConvertModelIDToHFPath x <> ConvertModelIDToHFPath y).
Proof.
  split; [reflexivity|]. split.
  - unfold Strings.ContainsByte, ConvertModelIDToHFPath. simpl.
    now rewrite ReplaceAll_slash_free.
  - intros _ _ Hx Hy Hne Heq. apply Hne.
    unfold ConvertModelIDToHFPath in Heq. simpl in Heq.
    injection Heq as Heq.
    rewrite <- (unescape_ReplaceAll x Hx), <- (unescape_ReplaceAll y Hy).
    now rewrite Heq.
Qed.

Lemma ConvertModelIDToHFPath_injective_witness :
  ConvertModelIDToHFPath "acme/foo-bar" <> ConvertModelIDToHFPath "acme-foo/bar".
Proof.
  apply (ConvertModelIDToHFPath_injective "acme/foo-bar" "acme-foo/bar");
    try reflexivity.
  discriminate.
Defined.

End PathCodec.

(** ** Path resolution *)

Section Resolution.
Import Filepath OS.

(** The walk, one component at a time. *)
Lemma namei_nil fuel root follow cur here :
  namei fuel root follow cur here [] = Found cur here.
Proof. destruct fuel; reflexivity. Qed.

Lemma namei_cons fuel root follow cur here c rest :
  namei fuel root follow cur here (c :: rest) =
  match here with
  | NDir es =>
      match child c es with
      | None => if isNil rest then Absent cur c else Failed ENOENT
      | Some (NSymlink t) =>
          if isNil rest && negb follow
          then Found (cur ++ [c]) (NSymlink t)
          else match fuel with
               | O => Failed ELOOP
               | S fuel' => namei fuel' root follow [] root (t ++ rest)
               end
      | Some n => namei fuel root follow (cur ++ [c]) n rest
      end
  | _ => Failed ENOTDIR
  end.
Proof. destruct fuel; reflexivity. Qed.

(** A link whose target cannot be resolved is not resolved either when
    it is met in the last position of a path. *)
Lemma namei_dangling root t :
  isLink root = false ->
  (forall k, isFound (namei k root true [] root t) = false) ->
  forall fuel rest cur here real,
    isLink here = false ->
    namei fuel root false cur here rest = Found real (NSymlink t) ->
    isFound (namei fuel root true cur here rest) = false.
Proof.
  intros Hroot Hdangling.
  induction fuel as [|fuel IHfuel];
    induction rest as [|c rest IHrest]; intros cur here real Hhere H;
    try (rewrite namei_nil in H; injection H as _ ->; discriminate);
    rewrite namei_cons in *;
    destruct here as [|?|es]; try discriminate;
    destruct (child c es) as [[|t'|es']|]; try discriminate;
    try (eapply IHrest; [reflexivity | eassumption]).
  - destruct rest; simpl in *; [reflexivity | discriminate].
  - destruct rest; discriminate.
  - destruct rest as [|c' rest]; simpl in *.
    + injection H as _ ->. rewrite app_nil_r. apply Hdangling.
    + eapply IHfuel; [exact Hroot | exact H].
  - destruct rest; discriminate.
Qed.

(** Looking one name further into a directory that a path leads to. *)
Lemma namei_child root c x :
  forall fuel rest cur here real es,
    namei fuel root false cur here rest = Found real (NDir es) ->
    child c es = Some x ->
    namei fuel root false cur here (rest ++ [c]) = Found (real ++ [c]) x.
Proof.
  assert (Hlast : forall fuel cur es,
             child c es = Some x ->
             namei fuel root false cur (NDir es) [c] = Found (cur ++ [c]) x).
  { intros fuel cur es Hc. rewrite namei_cons, Hc.
    destruct x; cbn [isNil negb andb]; rewrite ?namei_nil; reflexivity. }
  induction fuel as [|fuel IHfuel];
    induction rest as [|c0 rest IHrest]; intros cur here real es H Hc;
    cbn [app].
  - rewrite namei_nil in H. injection H as -> ->. now apply Hlast.
  - rewrite namei_cons in *.
    destruct here as [|?|es0]; try discriminate.
    destruct (child c0 es0) as [[|t0|es1]|];
      try (eapply IHrest; eassumption);
      destruct rest; discriminate.
  - rewrite namei_nil in H. injection H as -> ->. now apply Hlast.
  - rewrite namei_cons in *.
    destruct here as [|?|es0]; try discriminate.
    destruct (child c0 es0) as [[|t0|es1]|];
      try (eapply IHrest; eassumption);
      try (destruct rest; discriminate).
    destruct rest as [|c1 rest]; cbn [isNil negb andb app] in *;
      [discriminate|].
    rewrite app_comm_cons, app_assoc. eapply IHfuel; eassumption.
Qed.

End Resolution.

(** ** The revision resolver *)

Section RevisionResolver.
Import Filepath OS.

Lemma ReadFile_Stat root p data :
  ReadFile root p = Ok data -> exists i, Stat root p = Ok i.
Proof.
  unfold ReadFile, Stat. destruct (locate root true p) as [real n| |];
    try discriminate.
  intros _. eauto.
Qed.

(** C3: [RepoSha] returns the content of the ref file [refs/<token>] when
    that file can be read, and the token itself, unchanged, when the ref
    file does not exist or cannot be read. *)
Theorem RepoSha_ref_or_token root d modelID version :
  let refFile :=
    Join (Filestorage.baseDir (Distribution.Storage d))
         [Utils.ConvertModelIDToHFPath modelID; "refs"; version] in
  (forall data, ReadFile root refFile = Ok data ->
     Distribution.RepoSha root d modelID version = string_of_list_byte data) /\
  (forall e, Stat root refFile = Err e ->
     Distribution.RepoSha root d modelID version = version) /\
  (forall e, ReadFile root refFile = Err e ->
     Distribution.RepoSha root d modelID version = version).
Proof.
  intros refFile.
  unfold Distribution.RepoSha, Filestorage.getRepoSha. fold refFile.
  repeat split.
  - intros data H. destruct (ReadFile_Stat _ _ _ H) as [i Hi].
    now rewrite Hi, H.
  - intros e H. now rewrite H.
  - intros e H. destruct (Stat root refFile); [now rewrite H | reflexivity].
Qed.

Lemma RepoSha_ref_or_token_witness :
  Distribution.RepoSha Scenario.populated Scenario.dist "acme/foo" "main"
    = "abc123" /\
  Distribution.RepoSha Scenario.populated Scenario.dist "acme/foo" "abc123"
    = "abc123".
Proof.
  split.
  - apply (proj1 (RepoSha_ref_or_token Scenario.populated Scenario.dist
                    "acme/foo" "main") (Scenario.bytes "abc123")).
    reflexivity.
  - apply (proj1 (proj2 (RepoSha_ref_or_token Scenario.populated Scenario.dist
                           "acme/foo" "abc123")) ENOENT).
    reflexivity.
Defined.

End RevisionResolver.

(** ** The snapshot index *)

Section SnapshotIndex.
Import Filepath OS.

(** C8, as the claim states it, fails: a snapshot entry that exists but
    whose blob has gone is reported as missing, so the answer does depend
    on the indirection target. *)
Lemma FileExists_dangling_entry :
  Readlink Scenario.dangling
    (snapshotEntry Scenario.storage "acme/foo" "abc123" "config.json")
    = Ok (Scenario.blobPath "deadbeef") /\
  Filestorage.FileExists Scenario.dangling Scenario.storage
    "acme/foo" "abc123" "config.json" = (None, false) /\
  snd (Filestorage.FileExists Scenario.populated Scenario.storage
         "acme/foo" "abc123" "config.json") = true.
Proof. split; [|split]; reflexivity. Qed.

(** C8 (amended): [FileExists] stats the path
    [snapshots/<contentSetID>/<filename>] following indirections.  It
    reports [(fileInfo, true)] exactly when the path resolves to an
    existing node, and [fileInfo] describes that node (the blob, for an
    indirection entry); an indirection entry whose target cannot be
    resolved is reported as missing. *)
Theorem FileExists_follows_indirection root s modelID sha filename :
  let entry := snapshotEntry s modelID sha filename in
  (forall info,
     Filestorage.FileExists root s modelID sha filename = (Some info, true)
     <-> exists real n, locate root true entry = Found real n /\
                        info = infoOf (Base entry) n) /\
  (snd (Filestorage.FileExists root s modelID sha filename) = false
     <-> isFound (locate root true entry) = false) /\
  (forall real t,
     isLink root = false ->
     locate root false entry = Found real (NSymlink t) ->
     (forall k, isFound (namei k root true [] root t) = false) ->
     Filestorage.FileExists root s modelID sha filename = (None, false)).
Proof.
  intros entry.
  unfold Filestorage.FileExists, Stat. fold (snapshotEntry s modelID sha filename).
  fold entry.
  repeat split.
  - destruct (locate root true entry) as [real n| |]; try discriminate.
    intros H. injection H as <-. eauto.
  - intros (real & n & -> & ->). reflexivity.
  - destruct (locate root true entry); simpl; congruence.
  - destruct (locate root true entry); simpl; congruence.
  - intros real t Hroot Hentry Hdangling.
    pose proof (namei_dangling root t Hroot Hdangling maxSymlinks entry []
                  root real Hroot Hentry) as H.
    unfold locate. destruct (namei maxSymlinks root true [] root entry);
      [discriminate | reflexivity | reflexivity].
Qed.

Lemma FileExists_follows_indirection_witness :
  Filestorage.FileExists Scenario.dangling Scenario.storage
    "acme/foo" "abc123" "config.json" = (None, false).
Proof.
  apply (proj2 (proj2 (FileExists_follows_indirection Scenario.dangling
                         Scenario.storage "acme/foo" "abc123" "config.json"))
           (snapshotEntry Scenario.storage "acme/foo" "abc123" "config.json")
           (Scenario.blobPath "deadbeef")).
  - reflexivity.
  - reflexivity.
  - intros k. destruct k; reflexivity.
Defined.

(** C9: [FileEtag] reads the indirection target of the snapshot entry and
    returns its trailing path segment, and returns the empty string when
    the entry is missing or is not an indirection. *)
Theorem FileEtag_trailing_segment root s modelID sha filename :
  let entry := snapshotEntry s modelID sha filename in
  (forall real t,
     locate root false entry = Found real (NSymlink t) ->
     Filestorage.FileEtag root s modelID sha filename = last t "") /\
  (forall e,
     Lstat root entry = Err e ->
     Filestorage.FileEtag root s modelID sha filename = "") /\
  (forall real n,
     locate root false entry = Found real n -> isLink n = false ->
     Filestorage.FileEtag root s modelID sha filename = "").
Proof.
  intros entry.
  unfold Filestorage.FileEtag, Readlink, Lstat.
  fold (snapshotEntry s modelID sha filename). fold entry.
  repeat split.
  - intros real t H. now rewrite H.
  - intros e. destruct (locate root false entry); [discriminate | reflexivity..].
  - intros real n H Hn. rewrite H. destruct n; [reflexivity | discriminate | reflexivity].
Qed.

Lemma FileEtag_trailing_segment_witness :
  Filestorage.FileEtag Scenario.populated Scenario.storage
    "acme/foo" "abc123" "config.json" = "deadbeef" /\
  Filestorage.FileEtag Scenario.populated Scenario.storage
    "acme/foo" "abc123" "README.md" = "" /\
  Filestorage.FileEtag Scenario.populated Scenario.storage
    "acme/foo" "abc123" "model.bin" = "".
Proof.
  split; [|split].
  - apply (proj1 (FileEtag_trailing_segment Scenario.populated Scenario.storage
                    "acme/foo" "abc123" "config.json")
             (snapshotEntry Scenario.storage "acme/foo" "abc123" "config.json")
             (Scenario.blobPath "deadbeef")).
    reflexivity.
  - apply (proj2 (proj2 (FileEtag_trailing_segment Scenario.populated
                           Scenario.storage "acme/foo" "abc123" "README.md"))
             (snapshotEntry Scenario.storage "acme/foo" "abc123" "README.md")
             (NFile (Scenario.bytes "# foo"))); reflexivity.
  - apply (proj1 (proj2 (FileEtag_trailing_segment Scenario.populated
                           Scenario.storage "acme/foo" "abc123" "model.bin"))
             ENOENT).
    reflexivity.
Defined.

End SnapshotIndex.

(** ** Listing and sizing a model directory *)

Section Listing.
Import Filepath OS.

Lemma IsDir_infoOf name n : IsDir (infoOf name n) = isDirNode n.
Proof. destruct n; reflexivity. Qed.

Lemma collect_names (entries : list FileInfo) : forall acc,
  fold_left (fun files entry =>
               if negb (IsDir entry) then files ++ [Name entry] else files)
            entries acc
  = acc ++ map Name (filter (fun e => negb (IsDir e)) entries).
Proof.
  induction entries as [|e entries IH]; intros acc; simpl.
  - now rewrite app_nil_r.
  - rewrite IH. destruct (IsDir e); simpl; [reflexivity|].
    now rewrite <- app_assoc.
Qed.

Lemma names_of_files es :
  map Name (filter (fun e => negb (IsDir e))
                   (map (fun e => infoOf (fst e) (snd e)) es))
  = map fst (filter (fun e => negb (isDirNode (snd e))) es).
Proof.
  induction es as [|[name n] es IH]; [reflexivity|].
  simpl. rewrite IsDir_infoOf. destruct (isDirNode n); simpl.
  - exact IH.
  - rewrite IH. now destruct n.
Qed.

Lemma ListFiles_of_directory root s modelID real es :
  locate root true
         (Join (Filestorage.baseDir s) [Utils.ConvertModelIDToHFPath modelID])
    = Found real (NDir es) ->
  Filestorage.ListFiles root s modelID
    = Ok (map fst (filter (fun e => negb (isDirNode (snd e))) es)).
Proof.
  intros H. unfold Filestorage.ListFiles, Stat, ReadDir. rewrite H.
  simpl. now rewrite collect_names, names_of_files.
Qed.

Lemma files_by_kind es1 es2 :
  map kind es1 = map kind es2 ->
  map fst (filter (fun e => negb (isDirNode (snd e))) es1)
  = map fst (filter (fun e => negb (isDirNode (snd e))) es2).
Proof.
  revert es2. induction es1 as [|[n1 x1] es1 IH]; intros [|[n2 x2] es2] H;
    try discriminate; [reflexivity|].
  simpl in H. unfold kind at 1 3 in H. simpl in H.
  injection H as Hn Hx H. subst n2. simpl. rewrite Hx.
  destruct (isDirNode x2); simpl; rewrite (IH _ H); reflexivity.
Qed.

(** C10: when the encoded model directory exists, [ListFiles] returns
    exactly the names of the entries at its top level that are not
    directories: a name is listed if and only if such an entry bears it,
    so a persisted [.modeindex] is listed.  What the subdirectories hold
    is invisible: two caches whose model directories agree on the names
    and kinds of their top-level entries list the same files. *)
Theorem ListFiles_top_level_only root s modelID real es :
  let modelDir :=
    Join (Filestorage.baseDir s) [Utils.ConvertModelIDToHFPath modelID] in
  locate root true modelDir = Found real (NDir es) ->
  Filestorage.ListFiles root s modelID
    = Ok (map fst (filter (fun e => negb (isDirNode (snd e))) es)) /\
  (forall files, Filestorage.ListFiles root s modelID = Ok files ->
     forall name,
       In name files <-> exists n, In (name, n) es /\ isDirNode n = false) /\
  (forall data files,
     In (".modeindex", NFile data) es ->
     Filestorage.ListFiles root s modelID = Ok files ->
     In ".modeindex" files) /\
  (forall root' real' es',
     locate root' true modelDir = Found real' (NDir es') ->
     map kind es' = map kind es ->
     Filestorage.ListFiles root' s modelID
       = Filestorage.ListFiles root s modelID).
Proof.
  intros modelDir H.
  pose proof (ListFiles_of_directory root s modelID real es H) as Hlist.
  assert (Hiff : forall name,
             In name (map fst (filter (fun e => negb (isDirNode (snd e))) es))
             <-> exists n, In (name, n) es /\ isDirNode n = false).
  { intros name. rewrite in_map_iff. split.
    - intros ([name' n] & Hname & Hin). simpl in Hname. subst name'.
      apply filter_In in Hin. destruct Hin as [Hin Hn].
      exists n. split; [exact Hin|]. now apply negb_true_iff in Hn.
    - intros (n & Hin & Hn). exists (name, n). split; [reflexivity|].
      apply filter_In. split; [exact Hin|]. simpl. now rewrite Hn. }
  split; [exact Hlist|]. split; [|split].
  - intros files Hfiles. rewrite Hlist in Hfiles. injection Hfiles as <-.
    exact Hiff.
  - intros data files Hin Hfiles. rewrite Hlist in Hfiles.
    injection Hfiles as <-. apply Hiff. exists (NFile data). now split.
  - intros root' real' es' H' Hkind.
    rewrite Hlist, (ListFiles_of_directory root' s modelID real' es' H').
    f_equal. now apply files_by_kind.
Qed.

Lemma ListFiles_top_level_only_witness :
  Filestorage.ListFiles Scenario.captured Scenario.storage "acme/foo"
    = Ok [".modeindex"].
Proof.
  apply (proj1 (ListFiles_top_level_only Scenario.captured Scenario.storage
                  "acme/foo"
                  (Join Scenario.cacheRoot ["hub"; "models--acme--foo"])
                  Scenario.capturedDir eq_refl)).
Defined.

(** C7: on a model whose directory exists and holds a two-byte index,
    [GetStorageInfo] looks for a directory named by the plain identifier:
    it fails with "model not found" when there is none, and when there is
    one it stats the listed names there and counts nothing. *)
Theorem GetStorageInfo_plain_directory :
  Distribution.ListFiles Scenario.indexed Scenario.dist "acme/foo"
    = Ok [".modeindex"] /\
  Stat Scenario.indexed
       (Join Scenario.cacheRoot ["hub"; "models--acme--foo"; ".modeindex"])
    = Ok (mkFileInfo ".modeindex" 2 420) /\
  Distribution.GetStorageInfo Scenario.indexed Scenario.dist "acme/foo"
    = Err (Filestorage.ModelNotFound "acme/foo") /\
  Distribution.ListFiles Scenario.indexedBoth Scenario.dist "acme/foo"
    = Ok [".modeindex"] /\
  Distribution.GetStorageInfo Scenario.indexedBoth Scenario.dist "acme/foo"
    = Ok 0%Z.
Proof. repeat (split; [reflexivity|]). reflexivity. Qed.

End Listing.

(** ** The model index builder *)

Section ModelIndex.
Import Filepath OS.

Lemma Split_no_separator c :
  Strings.Count c Utils.slash = 0 -> Strings.Split c Utils.slash = [c].
Proof.
  induction c as [|a c IH]; [reflexivity|].
  cbn [Strings.Count Strings.Split].
  destruct (Ascii.eqb a Utils.slash); [discriminate|].
  intros H. now rewrite (IH H).
Qed.

Lemma Join_properName base c :
  properName c = true -> Join base [c] = base ++ [c].
Proof.
  unfold properName, Strings.ContainsByte. intros H.
  repeat (apply andb_true_iff in H; destruct H as [H ?]).
  rewrite negb_involutive in H. apply Nat.eqb_eq in H.
  unfold Join. cbn [fold_left]. rewrite (Split_no_separator c H).
  cbn [fold_left]. unfold enter.
  repeat match goal with
         | Hn : negb ?b = true |- _ => apply negb_true_iff in Hn; rewrite Hn
         end.
  reflexivity.
Qed.

Lemma child_NoDup es : forall c x,
  NoDup (map fst es) -> In (c, x) es -> child c es = Some x.
Proof.
  induction es as [|[n y] es IH]; intros c x Hnd Hin; [contradiction|].
  simpl in *. inversion Hnd as [|? ? Hnotin Hnd']; subst.
  destruct Hin as [Heq | Hin].
  - injection Heq as -> ->. now rewrite String.eqb_refl.
  - destruct (String.eqb n c) eqn:Hnc.
    + apply String.eqb_eq in Hnc. subst n. exfalso. apply Hnotin.
      change c with (fst (c, x)). now apply in_map.
    + now apply IH.
Qed.

Lemma wrap64_small z : (0 <= z < 2 ^ 63)%Z -> wrap64 z = z.
Proof.
  intros H. unfold wrap64. rewrite Z.mod_small; lia.
Qed.

Lemma countedSize_nonneg root e : (0 <= countedSize root e)%Z.
Proof.
  unfold countedSize, blobSize. destruct (snd e) as [data|t|es]; try lia.
  destruct (locate root true t) as [? [ | | ]| |]; lia.
Qed.

Lemma totalSize_nonneg root es : (0 <= totalSize root es)%Z.
Proof.
  induction es as [|e es IH]; simpl; [lia|].
  pose proof (countedSize_nonneg root e). lia.
Qed.

Lemma walkDir_directory {St Er}
  (fn : path -> result errno DirEntry -> St -> St * option Er)
  p name es st :
  walkDir fn p name (NDir es) st =
  match fn p (Ok (infoOf name (NDir es))) st with
  | (st', Some e) => (st', Some e)
  | (st', None) => walkEach fn p es st'
  end.
Proof.
  cbn [walkDir]. destruct (fn p (Ok (infoOf name (NDir es))) st) as [st' [e|]];
    [reflexivity|].
  revert st'. induction es as [|[c x] es IH]; intros st'; [reflexivity|].
  cbn [walkEach]. destruct (walkDir fn (Join p [c]) c x st') as [st1 [e|]];
    [reflexivity | apply IH].
Qed.

Lemma walkDir_leaf {St Er}
  (fn : path -> result errno DirEntry -> St -> St * option Er)
  p name x st :
  isDirNode x = false ->
  walkDir fn p name x st = fn p (Ok (infoOf name x)) st.
Proof.
  intros Hx. destruct x; try discriminate; cbn [walkDir];
    destruct (fn p _ st) as [st' [e|]]; reflexivity.
Qed.

(** One indexable entry seen by the callback of [buildModelIndex]. *)
Lemma walkFn_entry root s modelID snapshotDir real es c x p total fileList :
  locate root false snapshotDir = Found real (NDir es) ->
  child c es = Some x ->
  indexable root s modelID (c, x) = true ->
  Filestorage.walkFn root s (Utils.ConvertModelIDToHFPath modelID) snapshotDir
    p (Ok (infoOf c x)) (total, fileList)
  = ((wrap64 (total + countedSize root (c, x)),
      fileList ++ [Filestorage.mkSibling c]), None).
Proof.
  intros Hdir Hc Hidx. unfold indexable in Hidx. cbn [fst snd] in Hidx.
  apply andb_true_iff in Hidx. destruct Hidx as [Hname Hx].
  unfold Filestorage.walkFn. rewrite IsDir_infoOf.
  destruct x as [data|t|es']; try discriminate.
  - reflexivity.
  - cbn [isDirNode]. apply andb_true_iff in Hx. destruct Hx as [Hpath Hblob].
    unfold pathEqb in Hpath.
    destruct (list_eq_dec string_dec _ t) as [Ht|]; [|discriminate].
    change (Z.eqb (Z.land (Mode (infoOf c (NSymlink t))) ModeSymlink) 0)
      with false. cbv iota.
    cbn [Name infoOf fst snd].
    unfold Readlink, locate. rewrite (Join_properName _ _ Hname).
    rewrite (namei_child root c (NSymlink t) _ _ _ _ _ _ Hdir Hc).
    rewrite Ht. unfold countedSize, blobSize in *. cbn [snd].
    unfold Stat. destruct (locate root true t) as [? [d| |]| |];
      try discriminate.
    reflexivity.
Qed.

Lemma indexable_leaf root s modelID c x :
  indexable root s modelID (c, x) = true -> isDirNode x = false.
Proof.
  unfold indexable. cbn [fst snd]. destruct x; try reflexivity.
  now rewrite andb_false_r.
Qed.

(** The walk over the entries of a well-formed snapshot directory. *)
Lemma walkEach_snapshot root s modelID snapshotDir real es :
  locate root false snapshotDir = Found real (NDir es) ->
  NoDup (map fst es) ->
  forall es' total fileList,
    incl es' es ->
    Forall (fun e => indexable root s modelID e = true) es' ->
    (0 <= total)%Z ->
    (total + totalSize root es' < 2 ^ 63)%Z ->
    walkEach (Filestorage.walkFn root s (Utils.ConvertModelIDToHFPath modelID)
                                 snapshotDir)
             snapshotDir es' (total, fileList)
    = (((total + totalSize root es')%Z,
        fileList ++ map (fun e => Filestorage.mkSibling (fst e)) es'), None).
Proof.
  intros Hdir Hnd.
  induction es' as [|[c x] es' IH]; intros total fileList Hincl Hall Hpos Hbound.
  - simpl. now rewrite Z.add_0_r, app_nil_r.
  - inversion Hall as [|? ? Hidx Hall']; subst.
    assert (Hc : child c es = Some x).
    { apply child_NoDup; [exact Hnd|]. apply Hincl. now left. }
    cbn [walkEach].
    rewrite (walkDir_leaf _ _ _ _ _ (indexable_leaf _ _ _ _ _ Hidx)).
    rewrite (walkFn_entry root s modelID snapshotDir real es c x _ total
               fileList Hdir Hc Hidx).
    cbn [totalSize fold_right] in Hbound |- *.
    fold (totalSize root es') in Hbound |- *.
    pose proof (countedSize_nonneg root (c, x)) as Hsize.
    pose proof (totalSize_nonneg root es') as Hrest.
    rewrite wrap64_small by lia.
    rewrite IH; try lia; try assumption.
    + cbn [map fst]. rewrite <- app_assoc. cbn [app].
      f_equal. f_equal. lia.
    + intros e He. apply Hincl. now right.
Qed.

(** C2, as the claim states it, fails: a model directory without
    [.modeindex] whose revision token has no ref file gets an error, not a
    synthesized document. *)
Lemma RepoInfo_unresolved_revision :
    Stat Scenario.unresolved
         (Join Scenario.cacheRoot ["hub"; "models--acme--foo"; ".modeindex"])
      = Err ENOENT /\
    isOk (Stat Scenario.unresolved
            (Join Scenario.cacheRoot ["hub"; "models--acme--foo"])) = true /\
    Distribution.RepoInfo Scenario.clock Scenario.Unmarshal
      Scenario.unresolved Scenario.dist "acme/foo" "main"
    = Err (Filestorage.VersionFileNotFound
             (Join Scenario.cacheRoot
                   ["hub"; "models--acme--foo"; "refs"; "main"])).
Proof. repeat (split; [reflexivity|]). reflexivity. Qed.

(** C2 (amended): for every model directory that has no [.modeindex]
    file, [RepoInfo] fails when the revision token has no ref file; when
    the ref file can be read and the snapshot directory for the content-set
    id in it exists and holds plain files and indirections to existing
    blobs of the model, [RepoInfo] returns a synthesized document: its
    [sha] is that content-set id, its siblings are exactly the file names
    in the snapshot directory, and its [usedStorage] is the sum over those
    entries of the entry's own size for a plain file and of the size of the
    blob it points to for an indirection. *)
Theorem RepoInfo_synthesized clock Unmarshal root d modelID version
  data real es :
  let s := Distribution.Storage d in
  let modePath := Utils.ConvertModelIDToHFPath modelID in
  let sha := string_of_list_byte data in
  let refFile := Join (Filestorage.baseDir s) [modePath; "refs"; version] in
  Stat root (Join (Filestorage.baseDir s) [modePath; ".modeindex"])
    = Err ENOENT ->
  (forall e,
     Stat root refFile = Err e ->
     Distribution.RepoInfo clock Unmarshal root d modelID version
       = Err (Filestorage.VersionFileNotFound refFile)) /\
  (ReadFile root refFile = Ok data ->
   locate root false (Join (Filestorage.baseDir s) [modePath; "snapshots"; sha])
     = Found real (NDir es) ->
   NoDup (map fst es) ->
   Forall (fun e => indexable root s modelID e = true) es ->
   (totalSize root es < 2 ^ 63)%Z ->
   exists info,
     Distribution.RepoInfo clock Unmarshal root d modelID version = Ok info /\
     ApiModel.SHA info = sha /\
     map ApiModel.RFilename (ApiModel.Siblings info) = map fst es /\
     ApiModel.UsedStorage info = totalSize root es).
Proof.
  cbv zeta. intros Hindex.
  unfold Distribution.RepoInfo, Filestorage.RepoInfo.
  rewrite Hindex. cbn [IsNotExist].
  unfold Filestorage.buildModelIndex, Filestorage.getRepoSha.
  split.
  - intros e He. now rewrite He.
  - intros Href Hdir Hnd Hall Hbound.
    destruct (ReadFile_Stat _ _ _ Href) as [i Hi]. rewrite Hi, Href.
    unfold WalkDir. rewrite Hdir, walkDir_directory.
    match goal with
    | |- context [Filestorage.walkFn ?r ?s ?m ?dir ?p (Ok (infoOf ?n (NDir es))) ?st] =>
        change (Filestorage.walkFn r s m dir p (Ok (infoOf n (NDir es))) st)
          with (st, @None errno)
    end.
    cbv beta iota.
    rewrite (walkEach_snapshot root _ modelID _ real es Hdir Hnd es 0%Z []
               (incl_refl es) Hall (Z.le_refl 0) Hbound).
    eexists. split; [reflexivity|]. cbn.
    split; [reflexivity|]. split; [|reflexivity].
    rewrite !map_map. reflexivity.
Qed.

Lemma RepoInfo_synthesized_witness :
  Distribution.RepoInfo Scenario.clock Scenario.Unmarshal
    Scenario.unresolved Scenario.dist "acme/foo" "main"
  = Err (Filestorage.VersionFileNotFound
           (Join Scenario.cacheRoot
                 ["hub"; "models--acme--foo"; "refs"; "main"])) /\
  exists info,
    Distribution.RepoInfo Scenario.clock Scenario.Unmarshal
      Scenario.populated Scenario.dist "acme/foo" "main" = Ok info /\
    ApiModel.SHA info = "abc123" /\
    map ApiModel.RFilename (ApiModel.Siblings info)
      = ["README.md"; "config.json"] /\
    ApiModel.UsedStorage info = 16%Z.
Proof.
  split.
  - apply (proj1 (RepoInfo_synthesized Scenario.clock Scenario.Unmarshal
                    Scenario.unresolved Scenario.dist "acme/foo" "main"
                    [] [] [] eq_refl) ENOENT).
    reflexivity.
  - apply (proj2 (RepoInfo_synthesized Scenario.clock Scenario.Unmarshal
                    Scenario.populated Scenario.dist "acme/foo" "main"
                    (Scenario.bytes "abc123")
                    (Join Scenario.cacheRoot
                          ["hub"; "models--acme--foo"; "snapshots"; "abc123"])
                    Scenario.snapshot eq_refl)).
    + reflexivity.
    + reflexivity.
    + repeat constructor; simpl; intuition discriminate.
    + repeat constructor.
    + reflexivity.
Defined.

(** An indirection inside a subdirectory of the snapshot: the walk reads
    the link under the snapshot directory itself, where there is none. *)
Example RepoInfo_nested_indirection :
  Distribution.RepoInfo Scenario.clock Scenario.Unmarshal
    Scenario.nested Scenario.dist "acme/foo" "main"
  = Err (Filestorage.PathError ENOENT).
Proof. reflexivity. Qed.

End ModelIndex.

(** ** The streaming tee *)

Section Tee.
Context {W E : Type}.
Variable write : W -> list byte -> W * (Z * option E).

Let logSW : Type := Proxy.streamWriter (W * list (list byte)).

Lemma copy_chunk (buf p : list byte) :
  buf <> [] -> p <> [] ->
  exists k,
    Proxy.copy buf p
      = (firstn (S k) p ++ skipn (S k) buf, S k) /\
    S k <= List.length buf /\ S k <= List.length p.
Proof.
  intros Hbuf Hp. unfold Proxy.copy.
  destruct buf as [|b0 buf]; [contradiction|].
  destruct p as [|p0 p]; [contradiction|].
  cbn [List.length]. rewrite <- Nat.succ_min_distr.
  exists (Nat.min (List.length buf) (List.length p)).
  split; [reflexivity|]. split; lia.
Qed.

Lemma firstn_app_exact {A} (l1 l2 : list A) n :
  n = List.length l1 -> firstn n (l1 ++ l2) = l1.
Proof.
  intros ->. rewrite firstn_app, Nat.sub_diag, firstn_all. simpl.
  apply app_nil_r.
Qed.

Lemma feed_stream w pieces :
  streamSink write -> feed write w pieces = fst (write w (List.concat pieces)).
Proof.
  intros [Hnil Happ]. revert w.
  induction pieces as [|c pieces IH]; intros w; simpl.
  - now rewrite Hnil.
  - unfold feed in *. rewrite IH. apply Happ.
Qed.

(** One turn of the loop of [Write]. *)
Lemma writeLoop_step {W' E'} (wr : W' -> list byte -> W' * (Z * option E'))
  (sw : Proxy.streamWriter W') b p' buf k written :
  Proxy.copy (Proxy.buffer sw) (b :: p') = (buf, S k) ->
  Proxy.writeLoop wr sw (b :: p') written =
  match wr (Proxy.writer sw) (firstn (S k) buf) with
  | (w, (wn, Some werr)) =>
      (Proxy.mkStreamWriter w buf, (wrap64 (written + wn), Some werr))
  | (w, (wn, None)) =>
      Proxy.writeLoop wr (Proxy.mkStreamWriter w buf) (skipn (S k) (b :: p'))
                      (wrap64 (written + wn))
  end.
Proof.
  intros Hcopy. simp writeLoop. rewrite Hcopy. simp writeLoop.
  destruct (wr (Proxy.writer sw) (firstn (S k) buf)) as [w [wn [werr|]]];
    simp writeLoop; reflexivity.
Qed.

(** What the loop of [Write] does with the rest [p] of the input. *)
Lemma writeLoop_logged : forall n (p : list byte), List.length p <= n ->
  forall (sw : logSW) written,
  Proxy.buffer sw <> [] ->
  exists sw' count err pieces,
    Proxy.writeLoop (logged write) sw p written = (sw', (count, err)) /\
    snd (Proxy.writer sw') = snd (Proxy.writer sw) ++ pieces /\
    fst (Proxy.writer sw') = feed write (fst (Proxy.writer sw)) pieces /\
    Forall (pieceOf (List.length (Proxy.buffer sw))) pieces /\
    List.length (Proxy.buffer sw') = List.length (Proxy.buffer sw) /\
    (exists rest, List.concat pieces ++ rest = p) /\
    (err = None ->
       List.concat pieces = p /\
       (lawful write -> (0 <= written)%Z ->
        (written + Z.of_nat (List.length p) < 2 ^ 63)%Z ->
        count = (written + Z.of_nat (List.length p))%Z)) /\
    (accepting write -> err = None).
Proof.
  assert (Hdone : forall (sw : logSW) written,
    exists sw' count err pieces,
      (sw, (written, @None E)) = (sw', (count, err)) /\
      snd (Proxy.writer sw') = snd (Proxy.writer sw) ++ pieces /\
      fst (Proxy.writer sw') = feed write (fst (Proxy.writer sw)) pieces /\
      Forall (pieceOf (List.length (Proxy.buffer sw))) pieces /\
      List.length (Proxy.buffer sw') = List.length (Proxy.buffer sw) /\
      (exists rest, List.concat pieces ++ rest = @nil byte) /\
      (err = None ->
         List.concat pieces = [] /\
         (lawful write -> (0 <= written)%Z ->
          (written + Z.of_nat (@List.length byte []) < 2 ^ 63)%Z ->
          count = (written + Z.of_nat (@List.length byte []))%Z)) /\
      (accepting write -> err = None)).
  { intros sw written. exists sw, written, None, []. rewrite app_nil_r.
    repeat split; auto. { now exists []. } { simpl. lia. } }
  induction n as [|n IH]; intros p Hlen sw written Hbuf.
  - destruct p; [|simpl in Hlen; lia]. simp writeLoop. apply Hdone.
  - destruct p as [|b p']; [simp writeLoop; apply Hdone|].
    destruct (copy_chunk (Proxy.buffer sw) (b :: p') Hbuf) as (k & Hcopy & Hk1 & Hk2);
      [discriminate|].
    rewrite (writeLoop_step _ _ _ _ _ _ _ Hcopy).
    set (buf := firstn (S k) (b :: p') ++ skipn (S k) (Proxy.buffer sw)) in *.
    assert (Hchunk : firstn (S k) buf = firstn (S k) (b :: p')).
    { unfold buf. apply firstn_app_exact. rewrite length_firstn. lia. }
    assert (Hbuflen : List.length buf = List.length (Proxy.buffer sw)).
    { unfold buf. rewrite length_app, length_firstn, length_skipn. lia. }
    rewrite Hchunk. set (chunk := firstn (S k) (b :: p')) in *.
    assert (Hchunklen : List.length chunk = S k).
    { unfold chunk. rewrite length_firstn. lia. }
    unfold logged at 1.
    destruct (write (fst (Proxy.writer sw)) chunk) as [w [wn [werr|]]] eqn:Hw.
    + exists (Proxy.mkStreamWriter (w, snd (Proxy.writer sw) ++ [chunk]) buf),
        (wrap64 (written + wn)), (Some werr), [chunk].
      cbn [Proxy.writer Proxy.buffer fst snd feed fold_left List.concat].
      rewrite Hw. cbn [fst]. rewrite app_nil_r.
      repeat split; auto.
      * constructor; [unfold pieceOf; lia | constructor].
      * exists (skipn (S k) (b :: p')). apply firstn_skipn.
      * discriminate.
      * discriminate.
      * intros Hacc. specialize (Hacc (fst (Proxy.writer sw)) chunk).
        rewrite Hw in Hacc. discriminate.
    + specialize (IH (skipn (S k) (b :: p'))).
      destruct (IH ltac:(rewrite length_skipn; simpl in *; lia)
                   (Proxy.mkStreamWriter (w, snd (Proxy.writer sw) ++ [chunk]) buf)
                   (wrap64 (written + wn)))
        as (sw' & count & err & pieces & Hrun & Hlog & Hfeed & Hall & Hlen' & Hpre & Hok & Hacc).
      { cbn [Proxy.buffer]. intros Hnil. rewrite Hnil in Hbuflen.
        destruct (Proxy.buffer sw); [contradiction | discriminate]. }
      cbn [Proxy.writer Proxy.buffer fst snd] in *.
      exists sw', count, err, (chunk :: pieces).
      split; [exact Hrun|].
      split; [rewrite Hlog, <- app_assoc; reflexivity|].
      split; [rewrite Hfeed; cbn [feed fold_left]; rewrite Hw; reflexivity|].
      split; [constructor; [unfold pieceOf; lia|]; rewrite <- Hbuflen; exact Hall|].
      split; [lia|].
      split; [|split; [|exact Hacc]].
      * destruct Hpre as [rest Hrest]. exists rest.
        cbn [List.concat]. rewrite <- app_assoc, Hrest. apply firstn_skipn.
      * intros Herr. destruct (Hok Herr) as [Hcat Hcount].
        split; [cbn [List.concat]; rewrite Hcat; apply firstn_skipn|].
        intros Hlaw Hpos Hbound.
        assert (Hwn : wn = Z.of_nat (S k)).
        { rewrite <- Hchunklen. apply (Hlaw (fst (Proxy.writer sw)) chunk).
          now rewrite Hw. }
        assert (Hrestlen : List.length (skipn (S k) (b :: p'))
                           = List.length (b :: p') - S k).
        { apply length_skipn. }
        rewrite Hrestlen in Hcount.
        rewrite wrap64_small in Hcount by lia.
        rewrite Hcount; try assumption; lia.
Qed.

Lemma accepting_lawful : accepting write -> lawful write.
Proof.
  intros Hacc w c n H. rewrite Hacc in H. now injection H as <-.
Qed.

(** With a sink that never fails, [Write] takes the whole slice. *)
Lemma Write_accepting (sw : logSW) p :
  accepting write -> Proxy.buffer sw <> [] ->
  (Z.of_nat (List.length p) < 2 ^ 63)%Z ->
  exists sw' pieces,
    Proxy.Write (logged write) sw p
      = (sw', (Z.of_nat (List.length p), None)) /\
    snd (Proxy.writer sw') = snd (Proxy.writer sw) ++ pieces /\
    fst (Proxy.writer sw') = feed write (fst (Proxy.writer sw)) pieces /\
    Forall (pieceOf (List.length (Proxy.buffer sw))) pieces /\
    List.length (Proxy.buffer sw') = List.length (Proxy.buffer sw) /\
    List.concat pieces = p.
Proof.
  intros Hacc Hbuf Hbound. unfold Proxy.Write.
  destruct (writeLoop_logged (List.length p) p (le_n _) sw 0%Z Hbuf)
    as (sw' & count & err & pieces & Hrun & Hlog & Hfeed & Hall & Hlen & _
        & Hok & Herr).
  specialize (Herr Hacc). subst err.
  destruct (Hok eq_refl) as [Hcat Hcount].
  rewrite (Hcount (accepting_lawful Hacc) (Z.le_refl 0) Hbound) in Hrun.
  exists sw', pieces. repeat split; assumption.
Qed.

(** The copy of a whole body through the tee, with a sink that never
    fails. *)
Lemma copyBuffer_accepting :
  accepting write ->
  forall (chunks : list (list byte)) (sw : logSW) client,
    Proxy.buffer sw <> [] ->
    Forall (fun c => (Z.of_nat (List.length c) < 2 ^ 63)%Z) chunks ->
    exists sw' pieces,
      Proxy.copyBuffer (logged write) sw chunks client
        = ((sw', client ++ List.concat chunks), None) /\
      snd (Proxy.writer sw') = snd (Proxy.writer sw) ++ pieces /\
      fst (Proxy.writer sw') = feed write (fst (Proxy.writer sw)) pieces /\
      Forall (pieceOf (List.length (Proxy.buffer sw))) pieces /\
      List.concat pieces = List.concat chunks.
Proof.
  intros Hacc.
  induction chunks as [|chunk chunks IH]; intros sw client Hbuf Hsizes.
  - exists sw, []. cbn. rewrite !app_nil_r. repeat split; auto.
  - inversion Hsizes as [|? ? Hsize Hsizes']; subst.
    cbn [Proxy.copyBuffer]. unfold Proxy.teeRead.
    destruct (Z.ltb 0 (Z.of_nat (List.length chunk))) eqn:Hpos.
    + destruct (Write_accepting sw chunk Hacc Hbuf Hsize)
        as (sw1 & pieces1 & Hrun & Hlog1 & Hfeed1 & Hall1 & Hlen1 & Hcat1).
      rewrite Hrun. rewrite Nat2Z.id, firstn_all.
      destruct (IH sw1 (client ++ chunk)) as (sw' & pieces & Hcopy & Hlog & Hfeed & Hall & Hcat);
        [ intros Hnil; rewrite Hnil in Hlen1;
          destruct (Proxy.buffer sw); [contradiction | discriminate]
        | exact Hsizes' |].
      exists sw', (pieces1 ++ pieces).
      rewrite Hcopy, Hlog, Hlog1, Hfeed, Hfeed1, <- !app_assoc.
      cbn [List.concat]. rewrite concat_app, Hcat, Hcat1.
      unfold feed. rewrite fold_left_app.
      repeat split; auto.
      apply Forall_app. split; [exact Hall1|].
      rewrite <- Hlen1. exact Hall.
    + apply Z.ltb_ge in Hpos.
      assert (chunk = []) by (destruct chunk; [reflexivity | simpl in Hpos; lia]).
      subst chunk. cbn [List.length Z.of_nat Z.to_nat firstn].
      rewrite app_nil_r.
      destruct (IH sw client Hbuf Hsizes') as (sw' & pieces & Hcopy & Hrest).
      exists sw', pieces. rewrite Hcopy. cbn [List.concat app].
      split; [reflexivity | exact Hrest].
Qed.

(** A writer that has its buffer to itself: whatever slice
    [streamWriter.Write] is given, with a buffer that
    is not empty it hands the sink pieces of at most the buffer's length
    that, put together in order, are a prefix of the slice and, when no
    write fails, the slice itself; it then reports the full length of the
    slice, and the sink ends in the state a direct write of the slice
    leaves it in.  Copying a body through the tee therefore gives the
    client and the sink the same bytes in the order upstream sent them. *)
Theorem streamWriter_forwards_stream (sw : logSW) :
  Proxy.buffer sw <> [] ->
  (forall p, exists sw' count err pieces,
     Proxy.Write (logged write) sw p = (sw', (count, err)) /\
     snd (Proxy.writer sw') = snd (Proxy.writer sw) ++ pieces /\
     Forall (pieceOf (List.length (Proxy.buffer sw))) pieces /\
     (exists rest, List.concat pieces ++ rest = p) /\
     (err = None ->
        List.concat pieces = p /\
        (lawful write -> (Z.of_nat (List.length p) < 2 ^ 63)%Z ->
         count = Z.of_nat (List.length p)) /\
        (streamSink write ->
         fst (Proxy.writer sw') = fst (write (fst (Proxy.writer sw)) p)))) /\
  (accepting write ->
   forall chunks client,
     Forall (fun c => (Z.of_nat (List.length c) < 2 ^ 63)%Z) chunks ->
     exists sw' pieces,
       Proxy.copyBuffer (logged write) sw chunks client
         = ((sw', client ++ List.concat chunks), None) /\
       snd (Proxy.writer sw') = snd (Proxy.writer sw) ++ pieces /\
       Forall (pieceOf (List.length (Proxy.buffer sw))) pieces /\
       List.concat pieces = List.concat chunks /\
       (streamSink write ->
        fst (Proxy.writer sw')
          = fst (write (fst (Proxy.writer sw)) (List.concat chunks)))).
Proof.
  intros Hbuf. split.
  - intros p. unfold Proxy.Write.
    destruct (writeLoop_logged (List.length p) p (le_n _) sw 0%Z Hbuf)
      as (sw' & count & err & pieces & Hrun & Hlog & Hfeed & Hall & _ & Hpre
          & Hok & _).
    exists sw', count, err, pieces.
    repeat (split; [assumption|]).
    intros Herr. destruct (Hok Herr) as [Hcat Hcount].
    split; [exact Hcat|]. split.
    + intros Hlaw Hbound. now apply Hcount.
    + intros Hstream. rewrite Hfeed, <- Hcat. now apply feed_stream.
  - intros Hacc chunks client Hsizes.
    destruct (copyBuffer_accepting Hacc chunks sw client Hbuf Hsizes)
      as (sw' & pieces & Hcopy & Hlog & Hfeed & Hall & Hcat).
    exists sw', pieces. repeat (split; [assumption|]).
    intros Hstream. rewrite Hfeed, <- Hcat. now apply feed_stream.
Qed.
End Tee.

Section TeeWitness.
Lemma memorySink_accepting : accepting memorySink.
Proof. intros w c. reflexivity. Qed.

Lemma memorySink_stream : streamSink memorySink.
Proof.
  split.
  - intros w. apply app_nil_r.
  - intros w a b. unfold memorySink. cbn [fst]. now rewrite app_assoc.
Qed.

Lemma streamWriter_forwards_stream_witness :
  exists sw' pieces,
    Proxy.copyBuffer (logged memorySink)
      (Proxy.mkStreamWriter ([], []) (repeat x00 4))
      [Scenario.bytes "hello "; Scenario.bytes "world"] []
      = ((sw', Scenario.bytes "hello world"), None) /\
    snd (Proxy.writer sw') = pieces /\
    Forall (pieceOf 4) pieces /\
    List.concat pieces = Scenario.bytes "hello world" /\
    fst (Proxy.writer sw') = Scenario.bytes "hello world".
Proof.
  destruct (proj2 (streamWriter_forwards_stream memorySink
                     (Proxy.mkStreamWriter ([], []) (repeat x00 4))
                     ltac:(discriminate))
              memorySink_accepting
              [Scenario.bytes "hello "; Scenario.bytes "world"] []
              ltac:(repeat constructor))
    as (sw' & pieces & Hcopy & Hlog & Hall & Hcat & Hstream).
  exists sw', pieces.
  split; [exact Hcopy|]. split; [exact Hlog|]. split; [exact Hall|].
  split; [exact Hcat|]. exact (Hstream memorySink_stream).
Defined.
End TeeWitness.

(** ** Responses that overlap *)

Section Overlapping.
Import Filepath OS.

(** C6: the tee of a response does not have its buffer to itself.  The
    hook takes the buffer from the pool and its deferred [Put] gives it
    back when the hook returns, before any of the body has been read, so
    the tee of the next response is handed the same backing array.  When
    the bodies of two index responses are streamed in turns, the bytes
    that [streamWriter.Write] copied into the buffer for the first have
    been overwritten by the second when it writes them out: each client
    is sent its own body, and the cache file of the first model holds
    the body of the second. *)
Theorem streamWriter_shared_buffer :
  let index model := Join Scenario.cacheRoot ["hub"; model; ".modeindex"] in
  let hooked := Proxy.run Scenario.unreachable Scenario.overlapping [0; 1] in
  let after :=
    Proxy.run Scenario.unreachable Scenario.overlapping Scenario.inTurns in
  Proxy.goroutines hooked
    = [Proxy.Reading (mkFile (index "models--acme--foo") 0) 0
         [Scenario.fooBody] [];
       Proxy.Reading (mkFile (index "models--acme--bar") 0) 0
         [Scenario.barBody] []] /\
  Proxy.Pool.idle (Proxy.bufferPool (Proxy.proxy hooked)) = [0] /\
  Proxy.goroutines after
    = [Proxy.Finished (Ok Scenario.fooBody);
       Proxy.Finished (Ok Scenario.barBody)] /\
  ReadFile (Proxy.fs after) (index "models--acme--foo") = Ok Scenario.barBody /\
  ReadFile (Proxy.fs after) (index "models--acme--bar") = Ok Scenario.barBody /\
  Scenario.barBody <> Scenario.fooBody.
Proof.
  vm_compute. repeat (split; [reflexivity|]). discriminate.
Qed.

(** The same two responses one after the other: each cache file holds the
    body of its own response. *)
Example streamWriter_one_by_one :
  let index model := Join Scenario.cacheRoot ["hub"; model; ".modeindex"] in
  let after :=
    Proxy.run Scenario.unreachable Scenario.overlapping Scenario.oneByOne in
  Proxy.goroutines after
    = [Proxy.Finished (Ok Scenario.fooBody);
       Proxy.Finished (Ok Scenario.barBody)] /\
  ReadFile (Proxy.fs after) (index "models--acme--foo") = Ok Scenario.fooBody /\
  ReadFile (Proxy.fs after) (index "models--acme--bar") = Ok Scenario.barBody.
Proof.
  vm_compute. repeat (split; [reflexivity|]). reflexivity.
Qed.

(** A goroutine that takes all its steps with no other in between ends
    where [ServeHTTP] does: the same file system, the same bytes sent,
    the same pool, and in the buffer the bytes of the last piece. *)
Example run_alone :
  let exchange :=
    Proxy.ServeHTTP Scenario.proxy (Scenario.indexResponse "abc123")
      [Scenario.bytes "index "; Scenario.bytes "v2"] Scenario.indexed in
  let after :=
    Proxy.run Scenario.unreachable
      (Proxy.mkWorld Scenario.indexed Scenario.proxy
         [Proxy.Arrived (Scenario.indexResponse "abc123")
            [Scenario.bytes "index "; Scenario.bytes "v2"]])
      (repeat 0 12) in
  Proxy.fs after = fst exchange /\
  Proxy.goroutines after = [Proxy.Finished (Proxy.client (snd exchange))] /\
  Proxy.Pool.idle (Proxy.bufferPool (Proxy.proxy after))
    = Proxy.Pool.idle (Proxy.bufferPool (Proxy.proxy' (snd exchange))) /\
  map (firstn 8) (Proxy.Pool.arrays (Proxy.bufferPool (Proxy.proxy after)))
    = map (firstn 8)
        (Proxy.Pool.arrays (Proxy.bufferPool (Proxy.proxy' (snd exchange)))) /\
  map (firstn 8) (Proxy.Pool.arrays (Proxy.bufferPool (Proxy.proxy after)))
    = [Scenario.bytes "v2dex " ++ [x00; x00]].
Proof.
  vm_compute. repeat (split; [reflexivity|]). reflexivity.
Qed.

(** A [HEAD] response with a [Location]: the client is answered at once,
    and the goroutine that was started fills the blob from the location
    and links the snapshot entry to it. *)
Example run_head_location :
  let answered :=
    Proxy.run Scenario.reachable
      (Proxy.mkWorld Scenario.fresh Scenario.proxy
         [Proxy.Arrived Scenario.headResponse []]) [0] in
  let after := Proxy.run Scenario.reachable answered [1] in
  Proxy.fs answered = Scenario.fresh /\
  Proxy.goroutines answered
    = [Proxy.Finished (Ok []);
       Proxy.Fetching Scenario.headResponse
         (Some [Scenario.bytes "hello "; Scenario.bytes "world"])] /\
  Proxy.goroutines after = [Proxy.Finished (Ok []); Proxy.Ended] /\
  ReadFile (Proxy.fs after) (Scenario.blobPath "deadbeef")
    = Ok (Scenario.bytes "hello world") /\
  Readlink (Proxy.fs after)
    (snapshotEntry Scenario.storage "acme/foo" "abc123" "config.json")
    = Ok (Scenario.blobPath "deadbeef").
Proof.
  vm_compute. repeat (split; [reflexivity|]). reflexivity.
Qed.

End Overlapping.

(** ** One goroutine on its own *)

Section Alone.
Import Filepath OS.

Section Statements.
Context {W E : Type}.
Variable write : W -> list byte -> W * (Z * option E).

Lemma writeSteps_add n m : forall array w (s : Proxy.writing E),
  Proxy.writeSteps write (n + m) array w s
  = match Proxy.writeSteps write n array w s with
    | ((array', w'), s') => Proxy.writeSteps write m array' w' s'
    end.
Proof.
  induction n as [|n IH]; intros array w s; cbn [Nat.add Proxy.writeSteps].
  - reflexivity.
  - destruct (Proxy.writeStep write array w s) as [[array' w'] s']. apply IH.
Qed.

(** The statements of [streamWriter.Write], taken one after the other
    with nothing in between, end where the call as a whole does. *)
Lemma writeSteps_writeLoop : forall n (p : list byte), List.length p <= n ->
  forall (sw : Proxy.streamWriter W) written,
  exists k,
    Proxy.writeSteps write k (Proxy.buffer sw) (Proxy.writer sw)
      (Proxy.AtLoop p written)
    = ((Proxy.buffer (fst (Proxy.writeLoop write sw p written)),
        Proxy.writer (fst (Proxy.writeLoop write sw p written))),
       Proxy.Returned (fst (snd (Proxy.writeLoop write sw p written)))
                      (snd (snd (Proxy.writeLoop write sw p written)))).
Proof.
  induction n as [|n IH]; intros p Hlen sw written.
  - destruct p; [|simpl in Hlen; lia]. exists 1. simp writeLoop. reflexivity.
  - destruct p as [|b p']; [exists 1; simp writeLoop; reflexivity|].
    destruct (Proxy.copy (Proxy.buffer sw) (b :: p')) as [buf [|k]] eqn:Hcopy.
    + exists 1. cbn [Proxy.writeSteps Proxy.writeStep]. rewrite Hcopy.
      simp writeLoop. rewrite Hcopy. simp writeLoop. reflexivity.
    + rewrite (writeLoop_step _ _ _ _ _ _ _ Hcopy).
      destruct (write (Proxy.writer sw) (firstn (S k) buf))
        as [w [wn [werr|]]] eqn:Hw.
      * exists 2. cbn [Proxy.writeSteps Proxy.writeStep]. rewrite Hcopy.
        cbn [Proxy.writeStep]. rewrite Hw. reflexivity.
      * assert (Hk : S k <= List.length (b :: p')).
        { unfold Proxy.copy in Hcopy. injection Hcopy as _ Hmin.
          rewrite <- Hmin. apply Nat.le_min_r. }
        destruct (IH (skipn (S k) (b :: p'))
                     ltac:(rewrite length_skipn; simpl in *; lia)
                     (Proxy.mkStreamWriter w buf) (wrap64 (written + wn)))
          as [k' Hk'].
        exists (2 + k'). rewrite writeSteps_add.
        cbn [Proxy.writeSteps Proxy.writeStep]. rewrite Hcopy.
        cbn [Proxy.writeStep]. rewrite Hw. exact Hk'.
Qed.

End Statements.

End Alone.

(** ** Captures by the proxy *)

Section Capture.
Import Filepath OS.

(** Closed statements about one run of the proxy are settled by running
    it. *)
Ltac evaluate := vm_compute; repeat (split; [reflexivity|]); reflexivity.

(** C1: capturing the index response for [acme/foo] at revision [main]
    replaces the persisted [.modeindex] by the captured body, but the ref
    file [refs/main] is created empty whatever content-set id the
    [x-repo-commit] header carries, so the revision resolves to the empty
    string. *)
Theorem CreateModelIndexFile_empty_ref (commit : string) :
  let after :=
    fst (Proxy.ServeHTTP Scenario.proxy (Scenario.indexResponse commit)
           [Scenario.bytes "index "; Scenario.bytes "v2"] Scenario.indexed) in
  ReadFile Scenario.indexed
    (Join Scenario.cacheRoot ["hub"; "models--acme--foo"; ".modeindex"])
    = Ok (Scenario.bytes "{}") /\
  ReadFile after
    (Join Scenario.cacheRoot ["hub"; "models--acme--foo"; ".modeindex"])
    = Ok (Scenario.bytes "index v2") /\
  ReadFile after
    (Join Scenario.cacheRoot ["hub"; "models--acme--foo"; "refs"; "main"])
    = Ok [] /\
  Distribution.RepoSha after Scenario.dist "acme/foo" "main" = "".
Proof. evaluate. Qed.

(** A file capture with a linked etag: the client gets the body, the blob
    holds it and the snapshot entry resolves to the blob. *)
Example CreateModelFile_linked_etag :
  let exchange :=
    Proxy.ServeHTTP Scenario.proxy Scenario.fileResponse
      [Scenario.bytes "hello "; Scenario.bytes "world"] Scenario.fresh in
  let after := fst exchange in
  Proxy.client (snd exchange) = Ok (Scenario.bytes "hello world") /\
  ReadFile after (Scenario.blobPath "deadbeef")
    = Ok (Scenario.bytes "hello world") /\
  Readlink after
    (snapshotEntry Scenario.storage "acme/foo" "abc123" "config.json")
    = Ok (Scenario.blobPath "deadbeef") /\
  snd (Filestorage.FileExists after Scenario.storage
         "acme/foo" "abc123" "config.json") = true.
Proof. evaluate. Qed.

(** C4: for a response that carries only a weak etag, the blob path has a
    directory that does not exist and creating the blob file fails; the
    snapshot entry is created all the same and points at a blob that is
    not there. *)
Theorem CreateModelFile_dangling_entry :
  let outcome :=
    Proxy.CreateModelFile Scenario.proxy Scenario.weakResponse
      Scenario.fileRequest Scenario.fresh in
  snd outcome = Err ENOENT /\
  Readlink (fst outcome)
    (snapshotEntry Scenario.storage "acme/foo" "abc123" "config.json")
    = Ok (Scenario.blobPath "W/deadbeef") /\
  Stat (fst outcome) (Scenario.blobPath "W/deadbeef") = Err ENOENT /\
  Filestorage.FileExists (fst outcome) Scenario.storage
    "acme/foo" "abc123" "config.json" = (None, false).
Proof. evaluate. Qed.

End Capture.

(* ===================================================================== *)
(** * Further properties of the code *)
(* ===================================================================== *)

(** ** Identifiers taken from the response headers *)

Section Headers.

Lemma ReplaceAll_removed s c : Strings.Count (Strings.ReplaceAll s c "") c = 0.
Proof.
  induction s as [|a s IH]; [reflexivity|].
  cbn [Strings.ReplaceAll]. destruct (Ascii.eqb a c) eqn:Hac.
  - exact IH.
  - cbn [Strings.Count]. now rewrite Hac.
Qed.

Lemma ReplaceAll_absent s c new :
  Strings.Count s c = 0 -> Strings.ReplaceAll s c new = s.
Proof.
  induction s as [|a s IH]; [reflexivity|].
  cbn [Strings.Count Strings.ReplaceAll].
  destruct (Ascii.eqb a c); [discriminate|].
  intros H. now rewrite (IH H).
Qed.

Lemma append_assoc (a b c : string) : ((a ++ b) ++ c = a ++ (b ++ c))%string.
Proof.
  induction a as [|x a IH]; [reflexivity|]. cbn [String.append]. now rewrite IH.
Qed.

Lemma append_empty (a : string) : (a ++ "")%string = a.
Proof.
  induction a as [|x a IH]; [reflexivity|]. cbn [String.append]. now rewrite IH.
Qed.

Lemma ReplaceAll_app s t c new :
  Strings.ReplaceAll (s ++ t) c new
  = (Strings.ReplaceAll s c new ++ Strings.ReplaceAll t c new)%string.
Proof.
  induction s as [|a s IH]; [reflexivity|].
  cbn [String.append Strings.ReplaceAll].
  destruct (Ascii.eqb a c); rewrite IH.
  - now rewrite append_assoc.
  - reflexivity.
Qed.

Lemma unquote_quoted v :
  Strings.Count v Proxy.quote = 0 ->
  Strings.ReplaceAll (Scenario.quoted v) Proxy.quote "" = v.
Proof.
  intros Hv. unfold Scenario.quoted. cbn [Strings.ReplaceAll].
  rewrite Ascii.eqb_refl. cbn [String.append].
  rewrite ReplaceAll_app, (ReplaceAll_absent v _ _ Hv).
  cbn [Strings.ReplaceAll]. rewrite Ascii.eqb_refl.
  apply append_empty.
Qed.

(** The content identifier that [getCommitAndEtag] takes from a response
    never holds a double quote; a quoted value of [x-linked-etag] is taken
    without its quotes, and the value of [etag] is used in the same way
    when [x-linked-etag] is missing or empty.  The content-set identifier
    is the value of [x-repo-commit] as it stands. *)
Theorem getCommitAndEtag_unquoted (res : Proxy.Response) :
  let linked := Proxy.Get (Proxy.Header res) "x-linked-etag" in
  let plain := Proxy.Get (Proxy.Header res) "etag" in
  fst (Proxy.getCommitAndEtag res)
    = Proxy.Get (Proxy.Header res) "x-repo-commit" /\
  Strings.Count (snd (Proxy.getCommitAndEtag res)) Proxy.quote = 0 /\
  (forall v, Strings.Count v Proxy.quote = 0 ->
     linked = Scenario.quoted v -> snd (Proxy.getCommitAndEtag res) = v) /\
  (forall v, Strings.Count v Proxy.quote = 0 ->
     linked = "" -> plain = Scenario.quoted v ->
     snd (Proxy.getCommitAndEtag res) = v).
Proof.
  cbv zeta. unfold Proxy.getCommitAndEtag. cbn [fst snd].
  split; [reflexivity|]. split; [apply ReplaceAll_removed|]. split.
  - intros v Hv Hlinked. rewrite Hlinked. cbn [Scenario.quoted String.length Nat.eqb].
    now apply unquote_quoted.
  - intros v Hv Hlinked Hplain. rewrite Hlinked, Hplain. cbn [String.length Nat.eqb].
    now apply unquote_quoted.
Qed.

Lemma getCommitAndEtag_unquoted_witness :
  snd (Proxy.getCommitAndEtag Scenario.fileResponse) = "deadbeef".
Proof.
  apply (proj1 (proj2 (proj2 (getCommitAndEtag_unquoted Scenario.fileResponse)))
           "deadbeef"); reflexivity.
Defined.

End Headers.

(** ** The tee without a buffer *)

Section EmptyBuffer.
Context {W E : Type}.
Variable write : W -> list byte -> W * (Z * option E).

Lemma Write_without_buffer (w : W) (p : list byte) :
  Proxy.Write write (Proxy.mkStreamWriter w []) p
  = (Proxy.mkStreamWriter w [], (0%Z, None)).
Proof.
  unfold Proxy.Write. destruct p as [|b p]; simp writeLoop; [reflexivity|].
  unfold Proxy.copy. cbn [List.length Nat.min firstn skipn app Proxy.buffer].
  simp writeLoop. reflexivity.
Qed.

(** A stream writer whose buffer has length zero never calls its sink:
    [Write] reports zero bytes and no error for every slice, so a body
    copied through the tee reaches the client whole while the sink gets
    nothing and no error is raised. *)
Theorem copyBuffer_without_buffer (w : W) (chunks : list (list byte))
  (client : list byte) :
  (forall p, Proxy.Write write (Proxy.mkStreamWriter w []) p
             = (Proxy.mkStreamWriter w [], (0%Z, None))) /\
  Proxy.copyBuffer write (Proxy.mkStreamWriter w []) chunks client
  = ((Proxy.mkStreamWriter w [], client ++ List.concat chunks), None).
Proof.
  split; [apply Write_without_buffer|].
  revert client. induction chunks as [|chunk chunks IH]; intros client.
  - cbn. now rewrite app_nil_r.
  - cbn [Proxy.copyBuffer List.concat]. unfold Proxy.teeRead.
    rewrite Write_without_buffer.
    destruct (Z.ltb 0 (Z.of_nat (List.length chunk))) eqn:Hpos.
    + rewrite Nat2Z.id, firstn_all, IH. now rewrite <- app_assoc.
    + apply Z.ltb_ge in Hpos.
      assert (chunk = []) by (destruct chunk; [reflexivity | simpl in Hpos; lia]).
      subst chunk. cbn. rewrite app_nil_r. apply IH.
Qed.

End EmptyBuffer.

(** ** The persisted index *)

Section PersistedIndex.
Import Filepath OS.

(** When a model has a persisted [.modeindex], [RepoInfo] answers from it
    alone: the answer is the decoded document, a document that does not
    decode is an error, and the revision token asked for makes no
    difference. *)
Theorem RepoInfo_persisted_index clock Unmarshal root s modelID data :
  ReadFile root
    (Join (Filestorage.baseDir s)
          [Utils.ConvertModelIDToHFPath modelID; ".modeindex"]) = Ok data ->
  (forall version,
     Filestorage.RepoInfo clock Unmarshal root s modelID version
     = match Unmarshal data with
       | Some model => Ok model
       | None => Err Filestorage.UnmarshalFailed
       end) /\
  (forall version version',
     Filestorage.RepoInfo clock Unmarshal root s modelID version
     = Filestorage.RepoInfo clock Unmarshal root s modelID version').
Proof.
  intros Hread.
  assert (H : forall version,
             Filestorage.RepoInfo clock Unmarshal root s modelID version
             = match Unmarshal data with
               | Some model => Ok model
               | None => Err Filestorage.UnmarshalFailed
               end).
  { intros version. unfold Filestorage.RepoInfo.
    destruct (ReadFile_Stat _ _ _ Hread) as [i Hi]. now rewrite Hi, Hread. }
  split; [exact H|]. intros version version'. now rewrite !H.
Qed.

Lemma RepoInfo_persisted_index_witness :
  Filestorage.RepoInfo Scenario.clock Scenario.Unmarshal Scenario.captured
    Scenario.storage "acme/foo" "main"
  = Filestorage.RepoInfo Scenario.clock Scenario.Unmarshal Scenario.captured
      Scenario.storage "acme/foo" "v1.0".
Proof.
  apply (proj2 (RepoInfo_persisted_index Scenario.clock Scenario.Unmarshal
                  Scenario.captured Scenario.storage "acme/foo"
                  (Scenario.bytes "{}") eq_refl)).
Defined.

(** [ListFiles] succeeds exactly when the encoded model directory resolves
    to a directory; it reports "model not found" exactly when the path does
    not exist, and a read error when the path leads to something else. *)
Theorem ListFiles_errors root s modelID :
  let modelDir :=
    Join (Filestorage.baseDir s) [Utils.ConvertModelIDToHFPath modelID] in
  (isOk (Filestorage.ListFiles root s modelID) = true
     <-> exists real es, locate root true modelDir = Found real (NDir es)) /\
  (Filestorage.ListFiles root s modelID
     = Err (Filestorage.ModelNotFound modelID)
     <-> Stat root modelDir = Err ENOENT) /\
  (forall real n,
     locate root true modelDir = Found real n -> isDirNode n = false ->
     Filestorage.ListFiles root s modelID
     = Err (Filestorage.ReadDirectoryFailed ENOTDIR)).
Proof.
  cbv zeta. unfold Filestorage.ListFiles, Stat, ReadDir.
  destruct (locate root true _) as [real [data|t|es]|parent name|[]];
    cbn [notExist IsNotExist isOk isDirNode];
    (split; [split; [try discriminate; eauto
                    | intros (real' & es' & H); try discriminate; reflexivity]
            | split; [split; discriminate || reflexivity
                     | intros real' n H Hn; try discriminate;
                       try reflexivity;
                       injection H as _ <-; discriminate]]).
Qed.

Lemma ListFiles_errors_witness :
  Filestorage.ListFiles Scenario.captured Scenario.storage "acme/bar"
  = Err (Filestorage.ModelNotFound "acme/bar").
Proof.
  apply (proj1 (proj2 (ListFiles_errors Scenario.captured Scenario.storage
                         "acme/bar"))).
  reflexivity.
Defined.

End PersistedIndex.

(** ** Real paths *)

Section RealPathFacts.
Import Filepath OS.

Lemma get_app p q n :
  get (p ++ q) n = match get p n with Some x => get q x | None => None end.
Proof.
  revert n. induction p as [|c p IH]; intros n; [reflexivity|].
  cbn [app get]. destruct n as [| |es]; try reflexivity.
  destruct (child c es); [apply IH | reflexivity].
Qed.

(** The real path a walk reports leads to the node it reports, and a
    missing last component is missing from an existing directory. *)
Lemma namei_get root follow :
  forall fuel rest cur here,
    get cur root = Some here ->
    match namei fuel root follow cur here rest with
    | Found real n => get real root = Some n
    | Absent parent name =>
        exists es, get parent root = Some (NDir es) /\ child name es = None
    | Failed _ => True
    end.
Proof.
  induction fuel as [|fuel IHfuel];
    induction rest as [|c rest IHrest]; intros cur here Hcur;
    rewrite ?namei_nil, ?namei_cons; try exact Hcur.
  - destruct here as [| |es]; try exact I.
    destruct (child c es) as [[d|t|es']|] eqn:Hc.
    + apply IHrest. rewrite get_app, Hcur. cbn. now rewrite Hc.
    + destruct (isNil rest && negb follow); [|exact I].
      rewrite get_app, Hcur. cbn. now rewrite Hc.
    + apply IHrest. rewrite get_app, Hcur. cbn. now rewrite Hc.
    + destruct (isNil rest); [|exact I]. eauto.
  - destruct here as [| |es]; try exact I.
    destruct (child c es) as [[d|t|es']|] eqn:Hc.
    + apply IHrest. rewrite get_app, Hcur. cbn. now rewrite Hc.
    + destruct (isNil rest && negb follow).
      * rewrite get_app, Hcur. cbn. now rewrite Hc.
      * now apply IHfuel.
    + apply IHrest. rewrite get_app, Hcur. cbn. now rewrite Hc.
    + destruct (isNil rest); [|exact I]. eauto.
Qed.

Lemma locate_get root follow p real n :
  locate root follow p = Found real n -> get real root = Some n.
Proof.
  intros H. pose proof (namei_get root follow maxSymlinks p [] root eq_refl) as G.
  unfold locate in H. now rewrite H in G.
Qed.

(** A real path resolves to itself. *)
Lemma namei_real root follow fuel :
  forall rest cur here n,
    get rest here = Some n ->
    (follow = false \/ isLink n = false) ->
    namei fuel root follow cur here rest = Found (cur ++ rest) n.
Proof.
  induction rest as [|c rest IH]; intros cur here n Hget Hn.
  - rewrite namei_nil, app_nil_r. cbn in Hget. congruence.
  - rewrite namei_cons. cbn [get] in Hget.
    destruct here as [| |es]; try discriminate.
    destruct (child c es) as [x|]; [|discriminate].
    replace (cur ++ c :: rest) with ((cur ++ [c]) ++ rest)
      by (now rewrite <- app_assoc).
    destruct x as [d|t|es'].
    + now apply IH.
    + destruct rest as [|c' rest]; [|discriminate].
      cbn in Hget. injection Hget as <-.
      destruct Hn as [-> | Hn]; [|discriminate].
      cbn. now rewrite app_nil_r.
    + now apply IH.
Qed.

Lemma locate_real root follow p n :
  get p root = Some n ->
  (follow = false \/ isLink n = false) ->
  locate root follow p = Found p n.
Proof.
  intros Hget Hn. unfold locate.
  now rewrite (namei_real root follow maxSymlinks p [] root n Hget Hn).
Qed.

(** With the links followed, a walk never ends on a link, provided the
    root is none. *)
Lemma namei_follow_no_link root :
  isLink root = false ->
  forall fuel rest cur here real n,
    isLink here = false ->
    namei fuel root true cur here rest = Found real n -> isLink n = false.
Proof.
  intros Hroot.
  induction fuel as [|fuel IHfuel];
    induction rest as [|c rest IHrest]; intros cur here real n Hhere H;
    rewrite ?namei_nil, ?namei_cons in H;
    try (injection H as _ <-; exact Hhere);
    destruct here as [| |es]; try discriminate;
    destruct (child c es) as [[d|t|es']|];
    try (eapply IHrest; [|exact H]; reflexivity);
    try (destruct rest; discriminate).
  cbn [negb] in H. rewrite andb_false_r in H.
  eapply IHfuel; [exact Hroot | exact H].
Qed.

End RealPathFacts.

(** ** Fetching a file *)

Section Fetch.
Import Filepath OS.

Lemma locate_follow_real root p real n :
  isLink root = false ->
  locate root true p = Found real n ->
  isLink n = false /\ locate root false real = Found real n.
Proof.
  intros Hroot H.
  assert (Hn : isLink n = false).
  { exact (namei_follow_no_link root Hroot maxSymlinks p [] root real n Hroot H). }
  split; [exact Hn|].
  apply locate_real; [exact (locate_get _ _ _ _ _ H) | now left].
Qed.

Lemma GetFile_of_FileExists root s modelID sha filename :
  isLink root = false ->
  match Filestorage.FileExists root s modelID sha filename with
  | (Some info, true) =>
      exists real n,
        locate root true (snapshotEntry s modelID sha filename) = Found real n /\
        info = infoOf (Base (snapshotEntry s modelID sha filename)) n /\
        locate root false real = Found real n /\
        isLink n = false /\
        Filestorage.GetFile root s modelID sha filename = Ok (mkFile real 0)
  | _ => isOk (Filestorage.GetFile root s modelID sha filename) = false
  end.
Proof.
  intros Hroot. unfold Filestorage.FileExists, Filestorage.GetFile, Stat, Open.
  fold (snapshotEntry s modelID sha filename).
  destruct (locate root true _) as [real n|parent name|e] eqn:Hloc.
  - cbn [notExist].
    destruct (locate_follow_real root _ real n Hroot Hloc) as [Hn Hreal].
    exists real, n. repeat split; assumption.
  - reflexivity.
  - destruct e; reflexivity.
Qed.

(** [GetFile] succeeds exactly when [FileExists] reports the file, and the
    file it opens is the one [FileExists] describes: for a snapshot entry
    that resolves to a regular file, reading the opened file gives as many
    bytes as the reported size. *)
Theorem GetFile_agrees_with_FileExists root s modelID sha filename :
  isLink root = false ->
  match Filestorage.FileExists root s modelID sha filename with
  | (Some info, true) =>
      exists file,
        Filestorage.GetFile root s modelID sha filename = Ok file /\
        (IsDir info = false ->
         exists data, ReadAll root file = Ok data /\
                      Size info = Z.of_nat (List.length data))
  | _ => isOk (Filestorage.GetFile root s modelID sha filename) = false
  end.
Proof.
  intros Hroot.
  pose proof (GetFile_of_FileExists root s modelID sha filename Hroot) as H.
  destruct (Filestorage.FileExists root s modelID sha filename) as [[info|] []];
    try exact H.
  destruct H as (real & n & _ & -> & Hreal & Hn & Hget).
  exists (mkFile real 0). split; [exact Hget|].
  rewrite IsDir_infoOf. intros Hdir.
  destruct n as [data|t|es]; try discriminate.
  exists data. unfold ReadAll. cbn [fname offset]. rewrite Hreal.
  split; reflexivity.
Qed.

Lemma GetFile_agrees_with_FileExists_witness :
  exists file,
    Filestorage.GetFile Scenario.populated Scenario.storage
      "acme/foo" "abc123" "config.json" = Ok file /\
    (false = false ->
     exists data, ReadAll Scenario.populated file = Ok data /\
                  11%Z = Z.of_nat (List.length data)).
Proof.
  exact (GetFile_agrees_with_FileExists Scenario.populated Scenario.storage
           "acme/foo" "abc123" "config.json" eq_refl).
Defined.

End Fetch.

(** ** The handler of file requests *)

Section FileHandler.
Import Filepath OS.





(** Asking for a file by a revision token that has a ref file gives the
    same answer as asking by the content-set id that the ref file holds,
    provided that id does not name a ref file of its own. *)
Theorem handleGetModelFile_by_revision root s r r' data e :
  let refs version :=
    Join (Filestorage.baseDir (Distribution.Storage (Server.distribution s)))
         [Utils.ConvertModelIDToHFPath (Proxy.Get (Proxy.Vars r) "model_id");
          "refs"; version] in
  Proxy.Method r' = Proxy.Method r ->
  Proxy.Get (Proxy.Vars r') "model_id" = Proxy.Get (Proxy.Vars r) "model_id" ->
  Proxy.Get (Proxy.Vars r') "filename" = Proxy.Get (Proxy.Vars r) "filename" ->
  ReadFile root (refs (Proxy.Get (Proxy.Vars r) "sha")) = Ok data ->
  Proxy.Get (Proxy.Vars r') "sha" = string_of_list_byte data ->
  Stat root (refs (string_of_list_byte data)) = Err e ->
  Server.handleGetModelFile root s r' = Server.handleGetModelFile root s r.
Proof.
  cbv zeta. intros Hmethod Hmodel Hfile Href Hsha Hnone.
  unfold Server.handleGetModelFile.
  rewrite Hmethod, Hmodel, Hfile, Hsha.
  assert (Hr : Distribution.RepoSha root (Server.distribution s)
                 (Proxy.Get (Proxy.Vars r) "model_id")
                 (Proxy.Get (Proxy.Vars r) "sha") = string_of_list_byte data).
  { unfold Distribution.RepoSha, Filestorage.getRepoSha.
    destruct (ReadFile_Stat _ _ _ Href) as [i Hi]. now rewrite Hi, Href. }
  assert (Hr' : Distribution.RepoSha root (Server.distribution s)
                  (Proxy.Get (Proxy.Vars r) "model_id")
                  (string_of_list_byte data) = string_of_list_byte data).
  { unfold Distribution.RepoSha, Filestorage.getRepoSha. now rewrite Hnone. }
  now rewrite Hr, Hr'.
Qed.

Lemma handleGetModelFile_by_revision_witness :
  Server.handleGetModelFile Scenario.populated (Server.mkServer Scenario.dist)
    Scenario.fileRequest
  = Server.handleGetModelFile Scenario.populated (Server.mkServer Scenario.dist)
      (Proxy.mkRequest "GET" [("model_id", "acme/foo"); ("sha", "main");
                              ("filename", "config.json")]).
Proof.
  apply (handleGetModelFile_by_revision Scenario.populated
           (Server.mkServer Scenario.dist)
           (Proxy.mkRequest "GET" [("model_id", "acme/foo"); ("sha", "main");
                                   ("filename", "config.json")])
           Scenario.fileRequest (Scenario.bytes "abc123") ENOENT);
    reflexivity.
Defined.

End FileHandler.

(** ** More on the synthesized index *)

Section SynthesizedIndex.
Import Filepath OS.

Lemma Split_head s sep :
  let h := hd "" (Strings.Split s sep) in
  Strings.Count h sep = 0 /\
  (s = h \/ exists rest, s = (h ++ String sep rest)%string).
Proof.
  induction s as [|a s IH]; cbv zeta.
  - split; [reflexivity | now left].
  - cbn [Strings.Split]. destruct (Ascii.eqb a sep) eqn:Ha.
    + cbn [hd]. split; [reflexivity|]. right. exists s.
      apply Ascii.eqb_eq in Ha. now subst a.
    + cbv zeta in IH. destruct (Strings.Split s sep) as [|piece pieces].
      * cbn [hd]. cbn [hd] in IH. destruct IH as [_ [Hs | [rest Hs]]].
        -- subst s. split; [cbn; now rewrite Ha | now left].
        -- split; [cbn; now rewrite Ha|]. right. exists rest. now rewrite Hs.
      * cbn [hd] in IH |- *. destruct IH as [Hcount [Hs | [rest Hs]]].
        -- split; [cbn; now rewrite Ha|]. left. now rewrite <- Hs.
        -- split; [cbn; now rewrite Ha|]. right. exists rest.
           cbn [String.append]. now rewrite <- Hs.
Qed.

(** Whenever [buildModelIndex] synthesizes a document, its [id] and
    [modelId] are the identifier asked for, it is not disabled, its [sha] is
    what the ref file of the revision holds, and its [author] is the part
    of the identifier before the first separator: it holds no separator and
    the identifier is the author alone or the author followed by a
    separator. *)
Theorem buildModelIndex_metadata clock root s modelID version model :
  Filestorage.buildModelIndex clock root s modelID version = Ok model ->
  Filestorage.ID model = modelID /\
  Filestorage.ModelID model = modelID /\
  Filestorage.Disabled model = false /\
  Filestorage.getRepoSha root s modelID version = Ok (Filestorage.SHA model) /\
  Filestorage.LastModified model = clock 0 /\
  Filestorage.CreatedAt model = clock 1 /\
  Strings.Count (Filestorage.Author model) Utils.slash = 0 /\
  (modelID = Filestorage.Author model \/
   exists rest,
     modelID = (Filestorage.Author model ++ String Utils.slash rest)%string).
Proof.
  unfold Filestorage.buildModelIndex.
  destruct (Filestorage.getRepoSha root s modelID version) as [sha|err];
    [|discriminate].
  destruct (WalkDir _ root _ _) as [[totalSize fileList] [err|]];
    [discriminate|].
  intros H. injection H as <-. cbn.
  repeat (split; [reflexivity|]).
  apply (Split_head modelID Utils.slash).
Qed.

Lemma buildModelIndex_metadata_witness :
  Filestorage.getRepoSha Scenario.populated Scenario.storage "acme/foo" "main"
    = Ok (Filestorage.SHA Scenario.synthesized) /\
  Strings.Count (Filestorage.Author Scenario.synthesized) Utils.slash = 0.
Proof.
  destruct (buildModelIndex_metadata Scenario.clock Scenario.populated
              Scenario.storage "acme/foo" "main" Scenario.synthesized eq_refl)
    as (_ & _ & _ & Hsha & _ & _ & Hcount & _).
  split; [exact Hsha | exact Hcount].
Defined.

(** One indirection whose blob cannot be found makes the whole synthesis
    fail: when the snapshot directory holds well-formed entries followed by
    an indirection for which the stat of [blobs/<trailing segment of the
    target>] fails, [RepoInfo] returns that error and no document. *)
Theorem RepoInfo_dangling_indirection clock Unmarshal root s modelID version
  data real good c t rest e :
  let modePath := Utils.ConvertModelIDToHFPath modelID in
  let sha := string_of_list_byte data in
  let es := good ++ (c, NSymlink t) :: rest in
  Stat root (Join (Filestorage.baseDir s) [modePath; ".modeindex"])
    = Err ENOENT ->
  ReadFile root (Join (Filestorage.baseDir s) [modePath; "refs"; version])
    = Ok data ->
  locate root false (Join (Filestorage.baseDir s) [modePath; "snapshots"; sha])
    = Found real (NDir es) ->
  NoDup (map fst es) ->
  Forall (fun e => indexable root s modelID e = true) good ->
  (totalSize root good < 2 ^ 63)%Z ->
  properName c = true ->
  Stat root (Join (Filestorage.baseDir s) [modePath; "blobs"; SplitFile t])
    = Err e ->
  Filestorage.RepoInfo clock Unmarshal root s modelID version
    = Err (Filestorage.PathError e).
Proof.
  cbv zeta. intros Hindex Href Hdir Hnd Hgood Hbound Hname Hblob.
  unfold Filestorage.RepoInfo. rewrite Hindex. cbn [IsNotExist].
  unfold Filestorage.buildModelIndex, Filestorage.getRepoSha.
  destruct (ReadFile_Stat _ _ _ Href) as [i Hi]. rewrite Hi, Href.
  unfold WalkDir. rewrite Hdir, walkDir_directory.
  match goal with
  | |- context [Filestorage.walkFn ?r ?s ?m ?dir ?p (Ok (infoOf ?n (NDir ?l))) ?st] =>
      change (Filestorage.walkFn r s m dir p (Ok (infoOf n (NDir l))) st)
        with (st, @None errno)
  end.
  cbv beta iota.
  set (dir := Join (Filestorage.baseDir s)
                [Utils.ConvertModelIDToHFPath modelID; "snapshots";
                 string_of_list_byte data]) in *.
  set (fn := Filestorage.walkFn root s (Utils.ConvertModelIDToHFPath modelID) dir).
  assert (Hsplit : forall es1 es2 st,
             walkEach fn dir (es1 ++ es2) st
             = match walkEach fn dir es1 st with
               | (st1, Some err) => (st1, Some err)
               | (st1, None) => walkEach fn dir es2 st1
               end).
  { induction es1 as [|[c1 x1] es1 IH]; intros es2 st; [reflexivity|].
    cbn [app walkEach]. destruct (walkDir fn (Join dir [c1]) c1 x1 st) as [st1 [err|]];
      [reflexivity | apply IH]. }
  rewrite Hsplit.
  unfold fn at 1.
  rewrite (walkEach_snapshot root s modelID dir real _ Hdir Hnd good 0%Z []
             (incl_appl _ (incl_refl good)) Hgood (Z.le_refl 0) Hbound).
  cbn [walkEach].
  rewrite (walkDir_leaf fn _ c (NSymlink t) _ eq_refl).
  unfold fn, Filestorage.walkFn.
  rewrite IsDir_infoOf. cbn [isDirNode].
  change (Z.eqb (Z.land (Mode (infoOf c (NSymlink t))) ModeSymlink) 0) with false.
  cbv iota. cbn [Name infoOf fst snd].
  assert (Hc : child c (good ++ (c, NSymlink t) :: rest) = Some (NSymlink t)).
  { apply child_NoDup; [exact Hnd|]. apply in_elt. }
  unfold Readlink, locate. rewrite (Join_properName _ _ Hname).
  rewrite (namei_child root c (NSymlink t) _ _ _ _ _ _ Hdir Hc).
  rewrite Hblob. reflexivity.
Qed.

Lemma RepoInfo_dangling_indirection_witness :
  Filestorage.RepoInfo Scenario.clock Scenario.Unmarshal Scenario.dangling
    Scenario.storage "acme/foo" "main"
  = Err (Filestorage.PathError ENOENT).
Proof.
  apply (RepoInfo_dangling_indirection Scenario.clock Scenario.Unmarshal
           Scenario.dangling Scenario.storage "acme/foo" "main"
           (Scenario.bytes "abc123")
           (Join Scenario.cacheRoot
                 ["hub"; "models--acme--foo"; "snapshots"; "abc123"])
           [("README.md", NFile (Scenario.bytes "# foo"))]
           "config.json" (Scenario.blobPath "deadbeef") [] ENOENT).
  - reflexivity.
  - reflexivity.
  - reflexivity.
  - repeat constructor; simpl; intuition discriminate.
  - repeat constructor.
  - reflexivity.
  - reflexivity.
  - reflexivity.
Defined.

End SynthesizedIndex.

(** ** Writing one entry of a directory *)

Section Graft.
Import Filepath OS.

Lemma child_setChild name x es c :
  child c (setChild name x es)
  = if String.eqb name c then Some x else child c es.
Proof.
  induction es as [|[n y] es IH]; cbn [setChild child].
  - destruct (String.eqb name c); reflexivity.
  - destruct (String.eqb n name) eqn:Hn.
    + apply String.eqb_eq in Hn. subst n. cbn [child].
      destruct (String.eqb name c); reflexivity.
    + destruct (String.ltb name n); cbn [child].
      * destruct (String.eqb name c); reflexivity.
      * rewrite IH. destruct (String.eqb n c) eqn:Hnc; [|reflexivity].
        apply String.eqb_eq in Hnc. subst c. now rewrite String.eqb_sym, Hn.
Qed.

Lemma child_modify c0 q f es c :
  child c (map (fun e => if String.eqb (fst e) c0
                         then (fst e, modify q f (snd e)) else e) es)
  = if String.eqb c0 c
    then match child c es with
         | Some n => Some (modify q f n)
         | None => None
         end
    else child c es.
Proof.
  induction es as [|[n y] es IH]; cbn [map child fst snd].
  - destruct (String.eqb c0 c); reflexivity.
  - destruct (String.eqb n c0) eqn:Hn0; cbn [child fst snd].
    + apply String.eqb_eq in Hn0. subst n.
      destruct (String.eqb c0 c); [reflexivity | exact IH].
    + destruct (String.eqb n c) eqn:Hnc.
      * apply String.eqb_eq in Hnc. subst c. rewrite String.eqb_sym, Hn0.
        reflexivity.
      * exact IH.
Qed.

Lemma modify_leaf q f n :
  isDirNode n = false -> modify q f n = n.
Proof. destruct q, n; intros H; try discriminate; reflexivity. Qed.


Lemma namei_cons_plain fuel r follow cur es c n rest :
  child c es = Some n -> isLink n = false ->
  namei fuel r follow cur (NDir es) (c :: rest)
  = namei fuel r follow (cur ++ [c]) n rest.
Proof.
  intros Hc Hn. rewrite namei_cons, Hc. destruct n; [reflexivity | discriminate | reflexivity].
Qed.

Lemma sameKind_refl n : sameKind n n.
Proof. destruct n; simpl; auto. Qed.

Lemma sameKind_modify q f n : sameKind n (modify q f n).
Proof. destruct q, n; simpl; auto. Qed.

Section Simulation.
Variables (root : node) (parent : path) (name : string) (x : node).
Variable es0 : list (string * node).
Hypothesis Hparent : get parent root = Some (NDir es0).
Hypothesis Hold : child name es0 = None \/ exists d, child name es0 = Some (NFile d).
Hypothesis Hx : isLink x = false.

Let root' := graft parent name x root.

(** Where a walk stands with respect to the written entry: on the way to
    it, or off that way. *)
Definition onWay (cur : path) (here here' : node) : Prop :=
  exists q, parent = cur ++ q /\ here' = modify q (setChild name x) here.

Definition offWay (cur : path) (here here' : node) : Prop :=
  here' = here /\ forall q, cur ++ q <> parent ++ [name].

(** How the outcome of a walk changes with the write. *)
Definition grafted (r r' : located) : Prop :=
  match r with
  | Found real n =>
      exists n', r' = Found real n' /\
                 ((real = parent ++ [name] /\ n' = x) \/
                  (real <> parent ++ [name] /\ sameKind n n'))
  | Absent par nm =>
      (par = parent /\ nm = name /\ r' = Found (parent ++ [name]) x) \/
      ((par <> parent \/ nm <> name) /\ r' = Absent par nm)
  | Failed _ => True
  end.

Lemma off_step cur c :
  (forall q, cur ++ q <> parent ++ [name]) ->
  forall q, (cur ++ [c]) ++ q <> parent ++ [name].
Proof. intros H q. rewrite <- app_assoc. apply H. Qed.

Lemma get_child cur here es c n :
  get cur root = Some here -> here = NDir es -> child c es = Some n ->
  get (cur ++ [c]) root = Some n.
Proof.
  intros Hcur -> Hc. rewrite get_app, Hcur. cbn. now rewrite Hc.
Qed.

Lemma onWay_root : onWay [] root root'.
Proof. exists parent. split; reflexivity. Qed.

(** The step into a child that lies off the way, or on it but is not the
    written entry. *)
Lemma namei_graft_step follow fuel c rest cur es es' n n' :
  (forall cur here here',
     get cur root = Some here ->
     onWay cur here here' \/ offWay cur here here' ->
     grafted (namei fuel root follow cur here rest)
             (namei fuel root' follow cur here' rest)) ->
  (forall t,
     grafted match fuel with
             | O => Failed ELOOP
             | S fuel' => namei fuel' root follow [] root (t ++ rest)
             end
             match fuel with
             | O => Failed ELOOP
             | S fuel' => namei fuel' root' follow [] root' (t ++ rest)
             end) ->
  get cur root = Some (NDir es) ->
  child c es = Some n ->
  child c es' = Some n' ->
  cur ++ [c] <> parent ++ [name] ->
  onWay (cur ++ [c]) n n' \/ offWay (cur ++ [c]) n n' ->
  grafted (namei fuel root follow cur (NDir es) (c :: rest))
          (namei fuel root' follow cur (NDir es') (c :: rest)).
Proof.
  intros Hgo Hrestart Hcur Hc Hc' Hne Hinv.
  rewrite !namei_cons, Hc, Hc'.
  assert (Hget : get (cur ++ [c]) root = Some n)
    by (eapply get_child; eauto).
  assert (Hkind : sameKind n n').
  { destruct Hinv as [(q & _ & ->) | [-> _]];
      [apply sameKind_modify | apply sameKind_refl]. }
  destruct n as [d|t|es1], n' as [d'|t'|es1']; try contradiction.
  - now apply Hgo.
  - cbn in Hkind. subst t'.
    destruct (isNil rest && negb follow).
    + cbn [grafted]. eexists. split; [reflexivity|]. right. split; [exact Hne|].
      reflexivity.
    + apply Hrestart.
  - now apply Hgo.
Qed.

Lemma namei_graft_cons follow fuel c rest :
  (forall cur here here',
     get cur root = Some here ->
     onWay cur here here' \/ offWay cur here here' ->
     grafted (namei fuel root follow cur here rest)
             (namei fuel root' follow cur here' rest)) ->
  (forall t,
     grafted match fuel with
             | O => Failed ELOOP
             | S fuel' => namei fuel' root follow [] root (t ++ rest)
             end
             match fuel with
             | O => Failed ELOOP
             | S fuel' => namei fuel' root' follow [] root' (t ++ rest)
             end) ->
  forall cur here here',
    get cur root = Some here ->
    onWay cur here here' \/ offWay cur here here' ->
    grafted (namei fuel root follow cur here (c :: rest))
            (namei fuel root' follow cur here' (c :: rest)).
Proof.
  intros Hgo Hrestart cur here here' Hcur Hinv.
  destruct here as [d|t|es];
    [ rewrite namei_cons; exact I | rewrite namei_cons; exact I | ].
  destruct (child c es) as [n|] eqn:Hc.
  - (* the component exists before the write *)
    destruct Hinv as [([|c0 q] & Hq & ->) | [-> Hoff]].
    + (* at the directory that is written *)
      rewrite app_nil_r in Hq. subst cur.
      rewrite Hparent in Hcur. injection Hcur as <-.
      cbn [modify].
      destruct (String.eqb name c) eqn:Hnc.
      * apply String.eqb_eq in Hnc. subst c.
        destruct Hold as [Hnone | [d Hd]]; [congruence|].
        rewrite Hc in Hd. injection Hd as ->.
        rewrite (namei_cons_plain fuel root follow parent es0 name (NFile d) rest
                   Hc eq_refl).
        rewrite (namei_cons_plain fuel root' follow parent _ name x rest
                   ltac:(now rewrite child_setChild, String.eqb_refl) Hx).
        destruct rest as [|c' rest'].
        -- rewrite !namei_nil. cbn [grafted]. eexists.
           split; [reflexivity | left; split; reflexivity].
        -- rewrite namei_cons. exact I.
      * apply (namei_graft_step follow fuel c rest parent es0 _ n n Hgo Hrestart
                 Hparent Hc).
        -- now rewrite child_setChild, Hnc.
        -- intros E. apply app_inv_head in E. injection E as ->.
           now rewrite String.eqb_refl in Hnc.
        -- right. split; [reflexivity|]. intros q E. rewrite <- app_assoc in E.
           apply app_inv_head in E. injection E as -> _.
           now rewrite String.eqb_refl in Hnc.
    + (* above the directory that is written *)
      cbn [modify].
      destruct (String.eqb c0 c) eqn:Hc0.
      * apply String.eqb_eq in Hc0. subst c0.
        apply (namei_graft_step follow fuel c rest cur es _ n
                 (modify q (setChild name x) n) Hgo Hrestart Hcur Hc).
        -- now rewrite child_modify, String.eqb_refl, Hc.
        -- intros E. rewrite Hq, <- app_assoc in E. apply app_inv_head in E.
           cbn in E. injection E as E. destruct q; discriminate.
        -- left. exists q. split; [|reflexivity].
           rewrite Hq, <- app_assoc. reflexivity.
      * apply (namei_graft_step follow fuel c rest cur es _ n n Hgo Hrestart
                 Hcur Hc).
        -- now rewrite child_modify, Hc0.
        -- intros E. rewrite Hq, <- app_assoc in E. apply app_inv_head in E.
           cbn in E. injection E as -> _. now rewrite String.eqb_refl in Hc0.
        -- right. split; [reflexivity|]. intros q' E.
           rewrite Hq, <- !app_assoc in E. apply app_inv_head in E.
           cbn in E. injection E as -> _. now rewrite String.eqb_refl in Hc0.
    + (* off the way *)
      apply (namei_graft_step follow fuel c rest cur es es n n Hgo Hrestart
               Hcur Hc Hc).
      * intros E. apply (Hoff [c]). exact E.
      * right. split; [reflexivity|]. now apply off_step.
  - (* the component is missing before the write *)
    rewrite namei_cons, Hc.
    destruct rest as [|c' rest']; [|exact I].
    cbn [isNil grafted].
    destruct Hinv as [([|c0 q] & Hq & ->) | [-> Hoff]].
    + rewrite app_nil_r in Hq. subst cur.
      rewrite Hparent in Hcur. injection Hcur as <-.
      cbn [modify].
      destruct (String.eqb name c) eqn:Hnc.
      * apply String.eqb_eq in Hnc. subst c. left.
        split; [reflexivity|]. split; [reflexivity|].
        rewrite (namei_cons_plain fuel root' follow parent _ name x []
                   ltac:(now rewrite child_setChild, String.eqb_refl) Hx).
        apply namei_nil.
      * right. rewrite namei_cons, child_setChild, Hnc, Hc. cbn [isNil].
        split; [|reflexivity].
        right. intros ->. now rewrite String.eqb_refl in Hnc.
    + cbn [modify]. rewrite namei_cons, child_modify, Hc.
      right. split.
      * left. intros E. rewrite E in Hq.
        apply (f_equal (@List.length string)) in Hq.
        rewrite length_app in Hq. simpl in Hq. lia.
      * destruct (String.eqb c0 c); reflexivity.
    + rewrite namei_cons, Hc. cbn [isNil]. right. split; [|reflexivity].
      destruct (list_eq_dec string_dec cur parent) as [->|Hne];
        [|now left].
      right. intros ->. now apply (Hoff [name]).
Qed.

Lemma namei_graft follow :
  forall fuel rest cur here here',
    get cur root = Some here ->
    onWay cur here here' \/ offWay cur here here' ->
    grafted (namei fuel root follow cur here rest)
            (namei fuel root' follow cur here' rest).
Proof.
  assert (Hnil : forall fuel cur here here',
             onWay cur here here' \/ offWay cur here here' ->
             grafted (namei fuel root follow cur here [])
                     (namei fuel root' follow cur here' [])).
  { intros fuel cur here here' Hinv. rewrite !namei_nil.
    cbn [grafted]. exists here'. split; [reflexivity|]. right.
    destruct Hinv as [(q & Hq & ->) | [-> Hoff]].
    - split; [|apply sameKind_modify].
      intros E. rewrite E in Hq. apply (f_equal (@List.length string)) in Hq.
      rewrite !length_app in Hq. simpl in Hq. lia.
    - split; [|apply sameKind_refl].
      intros E. apply (Hoff []). now rewrite app_nil_r. }
  induction fuel as [|fuel IHfuel];
    induction rest as [|c rest IHrest]; intros cur here here' Hcur Hinv;
    try (now apply Hnil).
  - apply namei_graft_cons; auto. intros t. exact I.
  - apply namei_graft_cons; auto. intros t.
    apply IHfuel; [reflexivity | left; apply onWay_root].
Qed.

(** The outcome of resolving a path after the write. *)
Lemma locate_graft follow p :
  grafted (locate root follow p) (locate root' follow p).
Proof.
  unfold locate. apply namei_graft; [reflexivity | left; apply onWay_root].
Qed.

End Simulation.

(** What resolves to the written entry, or to the place where it is
    missing, resolves to the new node afterwards. *)
Lemma locate_graft_new root parent name x es0 follow p :
  get parent root = Some (NDir es0) ->
  child name es0 = None \/ (exists d, child name es0 = Some (NFile d)) ->
  isLink x = false ->
  locate root follow p = Absent parent name \/
  (exists n, locate root follow p = Found (parent ++ [name]) n) ->
  locate (graft parent name x root) follow p = Found (parent ++ [name]) x.
Proof.
  intros Hparent Hold Hx Hp.
  pose proof (locate_graft root parent name x es0 Hparent Hold Hx follow p) as G.
  destruct Hp as [Hp | [n Hp]]; rewrite Hp in G; cbn [grafted] in G.
  - destruct G as [(_ & _ & G) | ([E | E] & _)]; [exact G | congruence..].
  - destruct G as (n' & G & [[_ ->] | [E _]]); [exact G | congruence].
Qed.

Lemma get_parent real root n :
  get real root = Some n -> real <> [] ->
  exists es0, get (removelast real) root = Some (NDir es0) /\
              child (last real "") es0 = Some n.
Proof.
  intros Hget Hne.
  rewrite (app_removelast_last "" Hne) in Hget.
  rewrite get_app in Hget.
  destruct (get (removelast real) root) as [[d|t|es0]|]; try discriminate.
  exists es0. split; [reflexivity|]. cbn in Hget.
  destruct (child (last real "") es0); [exact Hget | discriminate].
Qed.

Lemma isDirNode_modify q f n : isDirNode (modify q f n) = isDirNode n.
Proof. destruct q, n; reflexivity. Qed.

Lemma isDirNode_isLink n : isDirNode n = true -> isLink n = false.
Proof. destruct n; intros H; try discriminate; reflexivity. Qed.

(** [os.Create]: on success the path leads to the opened file, which is
    empty; on failure nothing changes and the path cannot be read as a
    file. *)
Lemma Create_result root p :
  isDirNode root = true ->
  match Create root p with
  | (root', Ok f) =>
      isDirNode root' = true /\
      offset f = 0 /\
      locate root' true p = Found (fname f) (NFile []) /\
      locate root' false (fname f) = Found (fname f) (NFile [])
  | (root', Err _) =>
      root' = root /\ forall data, ReadFile root p <> Ok data
  end.
Proof.
  intros Hroot. unfold Create, ReadFile.
  destruct (locate root true p) as [real [d|t|es]|parent name|e] eqn:Hloc.
  - assert (Hreal : real <> []).
    { intros ->. pose proof (locate_get _ _ _ _ _ Hloc) as G. cbn in G.
      injection G as ->. discriminate. }
    destruct (get_parent real root _ (locate_get _ _ _ _ _ Hloc) Hreal)
      as (es0 & Hparent & Hchild).
    assert (Hnew : locate (graft (removelast real) (last real "") (NFile []) root)
                     true p = Found real (NFile [])).
    { rewrite (app_removelast_last "" Hreal) at 3.
      apply (locate_graft_new root _ _ (NFile []) es0 true p Hparent);
        [right; eauto | reflexivity |].
      right. exists (NFile d). rewrite <- (app_removelast_last "" Hreal).
      exact Hloc. }
    fold (graft (removelast real) (last real "") (NFile []) root).
    cbn [fname offset].
    assert (Hdir : isDirNode (graft (removelast real) (last real "") (NFile []) root)
                   = true)
      by (unfold graft; now rewrite isDirNode_modify).
    split; [exact Hdir|]. split; [reflexivity|]. split; [exact Hnew|].
    apply (locate_follow_real _ p real (NFile [])
             (isDirNode_isLink _ Hdir) Hnew).
  - split; [reflexivity | discriminate].
  - split; [reflexivity | discriminate].
  - pose proof (namei_get root true maxSymlinks p [] root eq_refl) as G.
    unfold locate in Hloc. rewrite Hloc in G. destruct G as (es0 & Hparent & Hchild).
    fold (graft parent name (NFile []) root). cbn [fname offset].
    assert (Hnew : locate (graft parent name (NFile []) root) true p
                   = Found (parent ++ [name]) (NFile [])).
    { apply (locate_graft_new root _ _ (NFile []) es0 true p Hparent);
        [now left | reflexivity | now left]. }
    assert (Hdir : isDirNode (graft parent name (NFile []) root) = true)
      by (unfold graft; now rewrite isDirNode_modify).
    split; [exact Hdir|]. split; [reflexivity|]. split; [exact Hnew|].
    apply (locate_follow_real _ p _ (NFile [])
             (isDirNode_isLink _ Hdir) Hnew).
  - split; [reflexivity | discriminate].
Qed.

End Graft.

(** ** Writing to an open file *)

Section FileWrites.
Import Filepath OS.

Lemma splice_append (data bytes : list byte) :
  splice data (List.length data) bytes = data ++ bytes.
Proof.
  unfold splice. rewrite Nat.sub_diag. cbn [repeat]. rewrite app_nil_r.
  rewrite firstn_all, (skipn_all2 data) by lia. now rewrite app_nil_r.
Qed.

(** A write at the end of a regular file that the open file names by its
    real path: the bytes are appended, and every path that led to the file
    still does. *)
Lemma FileWrite_append root f data bytes :
  isDirNode root = true ->
  locate root false (fname f) = Found (fname f) (NFile data) ->
  offset f = List.length data ->
  exists root' f',
    FileWrite root f bytes
      = ((root', f'), (Z.of_nat (List.length bytes), None)) /\
    isDirNode root' = true /\
    fname f' = fname f /\
    offset f' = List.length (data ++ bytes) /\
    locate root' false (fname f) = Found (fname f) (NFile (data ++ bytes)) /\
    (forall p, locate root true p = Found (fname f) (NFile data) ->
               locate root' true p = Found (fname f) (NFile (data ++ bytes))).
Proof.
  intros Hroot Hloc Hoff. unfold FileWrite. rewrite Hloc, Hoff, splice_append.
  set (real := fname f) in *.
  assert (Hreal : real <> []).
  { intros E. rewrite E in Hloc. pose proof (locate_get _ _ _ _ _ Hloc) as G.
    cbn in G. injection G as ->. discriminate. }
  destruct (get_parent real root _ (locate_get _ _ _ _ _ Hloc) Hreal)
    as (es0 & Hparent & Hchild).
  fold (graft (removelast real) (last real "") (NFile (data ++ bytes)) root).
  eexists. eexists. split; [reflexivity|]. cbn [fname offset].
  split; [unfold graft; now rewrite isDirNode_modify|].
  split; [reflexivity|]. split; [now rewrite length_app|].
  assert (Hnew : forall follow p,
             locate root follow p = Found real (NFile data) ->
             locate (graft (removelast real) (last real "")
                           (NFile (data ++ bytes)) root) follow p
             = Found real (NFile (data ++ bytes))).
  { intros follow p Hp. rewrite (app_removelast_last "" Hreal) at 3.
    apply (locate_graft_new root _ _ (NFile (data ++ bytes)) es0 follow p Hparent);
      [right; eauto | reflexivity |].
    right. exists (NFile data). rewrite <- (app_removelast_last "" Hreal).
    exact Hp. }
  split; [now apply Hnew | intros p; apply Hnew].
Qed.

(** [io.Copy] into a file opened at its end: everything delivered is
    appended, in order, and no error arises. *)
Lemma Copy_append chunks : forall root f data written,
  isDirNode root = true ->
  locate root false (fname f) = Found (fname f) (NFile data) ->
  offset f = List.length data ->
  exists root' f' count,
    Copy root f chunks written = ((root', f'), (count, None)) /\
    isDirNode root' = true /\
    (forall p, locate root true p = Found (fname f) (NFile data) ->
               locate root' true p
               = Found (fname f) (NFile (data ++ List.concat chunks))).
Proof.
  induction chunks as [|chunk chunks IH]; intros root f data written Hroot Hloc Hoff.
  - exists root, f, written. cbn. rewrite app_nil_r. auto.
  - cbn [Copy List.concat]. destruct chunk as [|b chunk].
    + cbn [isNil app]. now apply IH.
    + cbn [isNil].
      destruct (FileWrite_append root f data (b :: chunk) Hroot Hloc Hoff)
        as (root1 & f1 & Hwrite & Hroot1 & Hname & Hoff1 & Hloc1 & Hframe).
      rewrite Hwrite.
      destruct (IH root1 f1 (data ++ b :: chunk)
                   (wrap64 (written + Z.of_nat (List.length (b :: chunk))))
                   Hroot1)
        as (root' & f' & count & Hcopy & Hroot' & Hframe');
        [now rewrite Hname | exact Hoff1 |].
      exists root', f', count. split; [exact Hcopy|]. split; [exact Hroot'|].
      intros p Hp. rewrite app_assoc. rewrite Hname in Hframe'.
      apply Hframe'. now apply Hframe.
Qed.

End FileWrites.

(** ** Storing a file *)

Section Store.
Import Filepath OS.

Lemma Mkdir_dir root p :
  isDirNode root = true -> isDirNode (fst (Mkdir root p)) = true.
Proof.
  intros H. unfold Mkdir. destruct (locate root false p); cbn [fst];
    rewrite ?isDirNode_modify; exact H.
Qed.

Lemma mkdirAll_dir rev_p : forall root,
  isDirNode root = true -> isDirNode (fst (mkdirAll root rev_p)) = true.
Proof.
  induction rev_p as [|c rev_parent IH]; intros root H; cbn [mkdirAll].
  - destruct (Stat root _) as [i|e]; [destruct (IsDir i)|]; exact H.
  - destruct (Stat root _) as [i|e]; [destruct (IsDir i); exact H|].
    specialize (IH root H).
    destruct (mkdirAll root rev_parent) as [root1 [e1|]]; [exact IH|].
    cbn [fst] in IH. pose proof (Mkdir_dir root1 (rev (c :: rev_parent)) IH) as H2.
    destruct (Mkdir root1 _) as [root2 [e2|]]; cbn [fst] in H2; [|exact H2].
    destruct (Lstat root2 _) as [i|e']; [destruct (IsDir i)|]; exact H2.
Qed.

Lemma MkdirAll_dir root p :
  isDirNode root = true -> isDirNode (fst (MkdirAll root p)) = true.
Proof. apply mkdirAll_dir. Qed.

Lemma Join_Join base elems elems' :
  Join (Join base elems) elems' = Join base (elems ++ elems').
Proof. unfold Join. now rewrite fold_left_app. Qed.

(** Round trip: when [StoreFile] succeeds, the path it returns is the file
    name joined to the directory named by the plain identifier, and reading
    that path gives exactly the bytes that were delivered, in order;
    whatever the file held before is gone. *)
Theorem StoreFile_round_trip root s modelID filename content root' filePath :
  isDirNode root = true ->
  Filestorage.StoreFile root s modelID filename content = (root', Ok filePath) ->
  filePath = Join (Filestorage.baseDir s) [modelID; filename] /\
  ReadFile root' filePath = Ok (List.concat content).
Proof.
  intros Hroot. unfold Filestorage.StoreFile.
  remember (Join (Join (Filestorage.baseDir s) [modelID]) [filename]) as fp
    eqn:Hfp.
  pose proof (MkdirAll_dir root (Join (Filestorage.baseDir s) [modelID]) Hroot) as H1.
  destruct (MkdirAll root _) as [root1 [e1|]]; [discriminate|]. cbn [fst] in H1.
  pose proof (MkdirAll_dir root1 (removelast fp) H1) as H2.
  destruct (MkdirAll root1 _) as [root2 [e2|]]; [discriminate|]. cbn [fst] in H2.
  pose proof (Create_result root2 fp H2) as H3.
  destruct (Create root2 _) as [root3 [file|e3]]; [|discriminate].
  destruct H3 as (H3 & Hoff & Hpath & Hreal).
  destruct (Copy_append content root3 file [] 0%Z H3 Hreal Hoff)
    as (root4 & f4 & count & Hcopy & H4 & Hframe).
  rewrite Hcopy. intros E. injection E as <- <-.
  split; [rewrite Hfp; apply Join_Join|].
  unfold ReadFile. now rewrite (Hframe _ Hpath).
Qed.

Lemma StoreFile_round_trip_witness :
  ReadFile
    (fst (Filestorage.StoreFile Scenario.fresh Scenario.storage "acme/foo"
            "onnx/model.bin" [Scenario.bytes "ab"; []; Scenario.bytes "cd"]))
    (Join Scenario.cacheRoot ["hub"; "acme"; "foo"; "onnx"; "model.bin"])
  = Ok (Scenario.bytes "abcd").
Proof.
  apply (StoreFile_round_trip Scenario.fresh Scenario.storage "acme/foo"
           "onnx/model.bin" [Scenario.bytes "ab"; []; Scenario.bytes "cd"]
           _ _ eq_refl).
  reflexivity.
Defined.

End Store.

(** ** The ref file after an index capture *)

Section RefFile.
Import Filepath OS.

Lemma Remove_dir root p :
  isDirNode root = true -> isDirNode (fst (Remove root p)) = true.
Proof.
  intros H. unfold Remove.
  destruct (locate root false p) as [real [d|t|[|e es]]|parent name|e];
    cbn [fst]; try exact H;
    destruct real; cbn [fst]; rewrite ?isDirNode_modify; exact H.
Qed.

Lemma Create_dir root p :
  isDirNode root = true -> isDirNode (fst (Create root p)) = true.
Proof.
  intros H. pose proof (Create_result root p H) as R.
  destruct (Create root p) as [root' [f|e]]; cbn [fst].
  - apply R.
  - destruct R as [-> _]. exact H.
Qed.

Lemma path_dir p modelID root :
  isDirNode root = true ->
  isDirNode (fst (Proxy.path p modelID root)) = true /\
  snd (Proxy.path p modelID root)
  = Join (Proxy.baseDir p) ["hub"; Utils.ConvertModelIDToHFPath modelID].
Proof.
  intros H. unfold Proxy.path, Proxy.bind, Proxy.read, Proxy.when, Proxy.ignore,
    Proxy.ret.
  destruct (notExist (Stat root _)).
  - pose proof (MkdirAll_dir root
                  (Join (Proxy.baseDir p)
                        ["hub"; Utils.ConvertModelIDToHFPath modelID]) H) as HM.
    unfold Proxy.bind.
    destruct (MkdirAll root _) as [root1 e1]. cbn [fst snd] in *.
    split; [exact HM | reflexivity].
  - cbn [fst snd]. split; [exact H | reflexivity].
Qed.

(** Whatever the cache holds and whatever the request asks for,
    [CreateModelIndexFile] leaves the ref file of the requested revision
    without content: right after the call the file [refs/<version>] is
    empty, or the path cannot be read as a file at all. *)
Theorem CreateModelIndexFile_ref_empty p r root data :
  isDirNode root = true ->
  ReadFile (fst (Proxy.CreateModelIndexFile p r root))
    (Join (Proxy.baseDir p)
          ["hub";
           Utils.ConvertModelIDToHFPath (Proxy.Get (Proxy.Vars r) "model_id");
           "refs"; Proxy.Get (Proxy.Vars r) "version"]) = Ok data ->
  data = [].
Proof.
  intros Hroot. unfold Proxy.CreateModelIndexFile.
  set (modelID := Proxy.Get (Proxy.Vars r) "model_id").
  set (version := Proxy.Get (Proxy.Vars r) "version").
  unfold Proxy.bind at 1.
  destruct (path_dir p modelID root Hroot) as [H1 Hdir1].
  destruct (Proxy.path p modelID root) as [root1 dir1]. cbn [fst snd] in H1, Hdir1.
  subst dir1.
  unfold Proxy.bind at 1, Proxy.read at 1.
  unfold Proxy.bind at 1.
  assert (H2 : isDirNode
            (fst (Proxy.when (isOk (Stat root1 (Join (Join (Proxy.baseDir p)
                      ["hub"; Utils.ConvertModelIDToHFPath modelID])
                      [".modeindex"])))
                    (Proxy.ignore (fun root0 => Remove root0
                       (Join (Join (Proxy.baseDir p)
                          ["hub"; Utils.ConvertModelIDToHFPath modelID])
                          [".modeindex"]))) root1)) = true).
  { unfold Proxy.when, Proxy.ignore, Proxy.bind, Proxy.ret.
    destruct (isOk _); [|exact H1].
    pose proof (Remove_dir root1 (Join (Join (Proxy.baseDir p)
                  ["hub"; Utils.ConvertModelIDToHFPath modelID]) [".modeindex"]) H1)
      as HR.
    destruct (Remove root1 _). exact HR. }
  destruct (Proxy.when _ _ root1) as [root2 []]. cbn [fst] in H2.
  unfold Proxy.bind at 1.
  pose proof (Create_dir root2 (Join (Join (Proxy.baseDir p)
                ["hub"; Utils.ConvertModelIDToHFPath modelID]) [".modeindex"]) H2)
    as H3.
  destruct (Create root2 _) as [root3 file]. cbn [fst] in H3.
  unfold Proxy.bind at 1.
  destruct (path_dir p modelID root3 H3) as [H4 Hdir4].
  destruct (Proxy.path p modelID root3) as [root4 dir4]. cbn [fst snd] in H4, Hdir4.
  subst dir4.
  unfold Proxy.bind at 1, Proxy.read at 1.
  unfold Proxy.bind at 1.
  assert (H5 : isDirNode
            (fst (Proxy.when (notExist (Stat root4 (Join (Join (Proxy.baseDir p)
                      ["hub"; Utils.ConvertModelIDToHFPath modelID]) ["refs"])))
                    (Proxy.ignore (fun root0 => MkdirAll root0
                       (Join (Join (Proxy.baseDir p)
                          ["hub"; Utils.ConvertModelIDToHFPath modelID])
                          ["refs"]))) root4)) = true).
  { unfold Proxy.when, Proxy.ignore, Proxy.bind, Proxy.ret.
    destruct (notExist _); [|exact H4].
    pose proof (MkdirAll_dir root4 (Join (Join (Proxy.baseDir p)
                  ["hub"; Utils.ConvertModelIDToHFPath modelID]) ["refs"]) H4)
      as HM.
    destruct (MkdirAll root4 _). exact HM. }
  destruct (Proxy.when _ _ root4) as [root5 []]. cbn [fst] in H5.
  unfold Proxy.bind, Proxy.ignore, Proxy.ret. unfold Proxy.bind.
  rewrite !Join_Join. cbn [app].
  pose proof (Create_result root5
                (Join (Proxy.baseDir p)
                      ["hub"; Utils.ConvertModelIDToHFPath modelID; "refs"; version])
                H5) as HC.
  destruct (Create root5 _) as [root6 [f|e]]; cbn [fst].
  - destruct HC as (_ & _ & Hloc & _). unfold ReadFile. rewrite Hloc.
    intros E. now injection E as <-.
  - destruct HC as [-> HC]. intros E. now apply HC in E.
Qed.

Lemma CreateModelIndexFile_ref_empty_witness :
  isDirNode Scenario.populated = true /\
  ReadFile (fst (Proxy.CreateModelIndexFile Scenario.proxy Scenario.indexRequest
                   Scenario.populated))
    (Join (Proxy.baseDir Scenario.proxy)
          ["hub";
           Utils.ConvertModelIDToHFPath
             (Proxy.Get (Proxy.Vars Scenario.indexRequest) "model_id");
           "refs"; Proxy.Get (Proxy.Vars Scenario.indexRequest) "version"])
  = Ok [] /\
  @nil byte = [].
Proof.
  split; [reflexivity | split; [reflexivity |]].
  exact (CreateModelIndexFile_ref_empty Scenario.proxy Scenario.indexRequest
           Scenario.populated [] eq_refl eq_refl).
Defined.

End RefFile.

(** ** What a write leaves alone *)

Section Frame.
Import Filepath OS.

(** A regular file that a path resolves to is still what the path resolves
    to after an entry has been written elsewhere; when the entry written is
    the file itself, the path leads to the new node. *)
Lemma locate_graft_file root parent name x es0 follow p real d :
  get parent root = Some (NDir es0) ->
  child name es0 = None \/ (exists d0, child name es0 = Some (NFile d0)) ->
  isLink x = false ->
  locate root follow p = Found real (NFile d) ->
  (real = parent ++ [name] /\
   locate (graft parent name x root) follow p = Found real x) \/
  (real <> parent ++ [name] /\
   locate (graft parent name x root) follow p = Found real (NFile d)).
Proof.
  intros Hparent Hold Hx Hp.
  pose proof (locate_graft root parent name x es0 Hparent Hold Hx follow p) as G.
  rewrite Hp in G. cbn [grafted] in G.
  destruct G as (n' & G & [[E ->] | [E K]]).
  - left. now split.
  - right. split; [exact E|]. destruct n'; cbn in K; try contradiction.
    now subst.
Qed.

Lemma Mkdir_file root p follow q real d :
  locate root follow q = Found real (NFile d) ->
  locate (fst (Mkdir root p)) follow q = Found real (NFile d).
Proof.
  intros Hq. unfold Mkdir.
  destruct (locate root false p) as [r n|parent name|e] eqn:Hloc; cbn [fst];
    [exact Hq | | exact Hq].
  pose proof (namei_get root false maxSymlinks p [] root eq_refl) as G.
  unfold locate in Hloc. rewrite Hloc in G. destruct G as (es0 & Hparent & Hchild).
  destruct (locate_graft_file root parent name (NDir []) es0 follow q real d
              Hparent (or_introl Hchild) eq_refl Hq) as [[E _] | [_ K]].
  - pose proof (locate_get _ _ _ _ _ Hq) as Gq.
    rewrite E, get_app, Hparent in Gq. cbn in Gq. rewrite Hchild in Gq.
    discriminate.
  - exact K.
Qed.

Lemma mkdirAll_file rev_p : forall root follow q real d,
  locate root follow q = Found real (NFile d) ->
  locate (fst (mkdirAll root rev_p)) follow q = Found real (NFile d).
Proof.
  induction rev_p as [|c rev_parent IH]; intros root follow q real d H;
    cbn [mkdirAll].
  - destruct (Stat root _) as [i|e]; [destruct (IsDir i)|]; exact H.
  - destruct (Stat root _) as [i|e]; [destruct (IsDir i); exact H|].
    specialize (IH root follow q real d H).
    destruct (mkdirAll root rev_parent) as [root1 [e1|]]; [exact IH|].
    cbn [fst] in IH.
    pose proof (Mkdir_file root1 (rev (c :: rev_parent)) follow q real d IH) as H2.
    destruct (Mkdir root1 _) as [root2 [e2|]]; cbn [fst] in H2; [|exact H2].
    destruct (Lstat root2 _) as [i|e']; [destruct (IsDir i)|]; exact H2.
Qed.

Lemma MkdirAll_file root p follow q real d :
  locate root follow q = Found real (NFile d) ->
  locate (fst (MkdirAll root p)) follow q = Found real (NFile d).
Proof. apply mkdirAll_file. Qed.

(** [os.Create] elsewhere leaves an empty file empty. *)
Lemma Create_empty_file root p follow q real :
  isDirNode root = true ->
  locate root follow q = Found real (NFile []) ->
  locate (fst (Create root p)) follow q = Found real (NFile []).
Proof.
  intros Hroot Hq. unfold Create.
  destruct (locate root true p) as [r [d|t|es]|parent name|e] eqn:Hloc;
    cbn [fst]; [ | exact Hq | exact Hq | | exact Hq].
  - assert (Hr : r <> []).
    { intros ->. pose proof (locate_get _ _ _ _ _ Hloc) as G. cbn in G.
      injection G as ->. discriminate. }
    destruct (get_parent r root _ (locate_get _ _ _ _ _ Hloc) Hr)
      as (es0 & Hparent & Hchild).
    destruct (locate_graft_file root (removelast r) (last r "") (NFile []) es0
                follow q real [] Hparent (or_intror (ex_intro _ d Hchild))
                eq_refl Hq) as [[_ K] | [_ K]]; exact K.
  - pose proof (namei_get root true maxSymlinks p [] root eq_refl) as G.
    unfold locate in Hloc. rewrite Hloc in G.
    destruct G as (es0 & Hparent & Hchild).
    destruct (locate_graft_file root parent name (NFile []) es0 follow q real []
                Hparent (or_introl Hchild) eq_refl Hq) as [[_ K] | [_ K]];
      exact K.
Qed.

Lemma path_file p modelID root follow q real d :
  locate root follow q = Found real (NFile d) ->
  locate (fst (Proxy.path p modelID root)) follow q = Found real (NFile d).
Proof.
  intros H. unfold Proxy.path, Proxy.bind, Proxy.read, Proxy.when, Proxy.ignore,
    Proxy.ret.
  destruct (notExist (Stat root _)); [|exact H].
  pose proof (MkdirAll_file root
                (Join (Proxy.baseDir p)
                      ["hub"; Utils.ConvertModelIDToHFPath modelID])
                follow q real d H) as HM.
  unfold Proxy.bind.
  destruct (MkdirAll root _) as [root1 e1]. exact HM.
Qed.

End Frame.

(** ** A sink whose content is tracked *)

Section TrackedSink.
Context {W E : Type}.
Variable write : W -> list byte -> W * (Z * option E).

(** [holds w data]: the sink in state [w] holds [data]. *)
Variable holds : W -> list byte -> Prop.
Hypothesis Hwrite : forall w data c,
  holds w data ->
  exists w', write w c = (w', (Z.of_nat (List.length c), None)) /\
             holds w' (data ++ c).

Lemma writeLoop_holds : forall n (p : list byte), List.length p <= n ->
  forall (sw : Proxy.streamWriter W) written data,
  Proxy.buffer sw <> [] ->
  holds (Proxy.writer sw) data ->
  exists sw' count,
    Proxy.writeLoop write sw p written = (sw', (count, None)) /\
    holds (Proxy.writer sw') (data ++ p) /\
    List.length (Proxy.buffer sw') = List.length (Proxy.buffer sw).
Proof.
  induction n as [|n IH]; intros p Hlen sw written data Hbuf Hw.
  - destruct p; [|simpl in Hlen; lia]. simp writeLoop.
    exists sw, written. rewrite app_nil_r. now split.
  - destruct p as [|b p'].
    { simp writeLoop. exists sw, written. rewrite app_nil_r. now split. }
    destruct (copy_chunk (Proxy.buffer sw) (b :: p') Hbuf)
      as (k & Hcopy & Hk1 & Hk2); [discriminate|].
    rewrite (writeLoop_step _ _ _ _ _ _ _ Hcopy).
    set (buf := firstn (S k) (b :: p') ++ skipn (S k) (Proxy.buffer sw)) in *.
    assert (Hchunk : firstn (S k) buf = firstn (S k) (b :: p')).
    { unfold buf. apply firstn_app_exact. rewrite length_firstn. lia. }
    assert (Hbuflen : List.length buf = List.length (Proxy.buffer sw)).
    { unfold buf. rewrite length_app, length_firstn, length_skipn. lia. }
    rewrite Hchunk.
    destruct (Hwrite (Proxy.writer sw) data (firstn (S k) (b :: p')) Hw)
      as (w' & Hrun & Hw').
    rewrite Hrun.
    destruct (IH (skipn (S k) (b :: p'))
                 ltac:(rewrite length_skipn; simpl in *; lia)
                 (Proxy.mkStreamWriter w' buf)
                 (wrap64 (written + Z.of_nat
                            (List.length (firstn (S k) (b :: p')))))
                 (data ++ firstn (S k) (b :: p')))
      as (sw' & count & Hloop & Hholds & Hlen').
    { cbn [Proxy.buffer]. intros Hnil. rewrite Hnil in Hbuflen.
      destruct (Proxy.buffer sw); [contradiction | discriminate]. }
    { exact Hw'. }
    exists sw', count. split; [exact Hloop|].
    rewrite <- app_assoc, firstn_skipn in Hholds.
    split; [exact Hholds|]. cbn [Proxy.buffer] in Hlen'. lia.
Qed.

Lemma copyBuffer_holds :
  forall (chunks : list (list byte)) (sw : Proxy.streamWriter W) client data,
    Proxy.buffer sw <> [] ->
    holds (Proxy.writer sw) data ->
    exists sw',
      Proxy.copyBuffer write sw chunks client
        = ((sw', client ++ List.concat chunks), None) /\
      holds (Proxy.writer sw') (data ++ List.concat chunks).
Proof.
  induction chunks as [|chunk chunks IH]; intros sw client data Hbuf Hw.
  - exists sw. cbn. rewrite !app_nil_r. now split.
  - cbn [Proxy.copyBuffer]. unfold Proxy.teeRead.
    destruct (Z.ltb 0 (Z.of_nat (List.length chunk))) eqn:Hpos.
    + destruct (writeLoop_holds (List.length chunk) chunk (le_n _) sw 0%Z data
                  Hbuf Hw) as (sw1 & count & Hrun & Hw1 & Hlen1).
      unfold Proxy.Write. rewrite Hrun. rewrite Nat2Z.id, firstn_all.
      destruct (IH sw1 (client ++ chunk) (data ++ chunk))
        as (sw' & Hcopy & Hw');
        [ intros Hnil; rewrite Hnil in Hlen1;
          destruct (Proxy.buffer sw); [contradiction | discriminate]
        | exact Hw1 |].
      exists sw'. rewrite Hcopy. cbn [List.concat].
      rewrite <- !app_assoc in *. now split.
    + apply Z.ltb_ge in Hpos.
      assert (chunk = []) by (destruct chunk; [reflexivity | simpl in Hpos; lia]).
      subst chunk. cbn [List.length Z.of_nat Z.to_nat firstn].
      rewrite app_nil_r. apply IH; assumption.
Qed.

End TrackedSink.

(** ** One index response on its own *)

Section IndexAlone.
Import Filepath OS.

Lemma Get_roomy bp bp' a :
  roomy bp -> Proxy.Pool.Get bp = (bp', a) ->
  Proxy.Pool.load (Proxy.Pool.Put bp' a) a <> [].
Proof.
  unfold roomy, Proxy.Pool.Get, Proxy.Pool.load, Proxy.Pool.Put.
  destruct bp as [arrays idle]. cbn [Proxy.Pool.arrays Proxy.Pool.idle].
  intros Hroomy. destruct idle as [|a0 rest]; intros E; injection E as <- <-;
    cbn [Proxy.Pool.arrays].
  - rewrite app_nth2, Nat.sub_diag by lia. discriminate.
  - now inversion Hroomy.
Qed.

(** The file that [CreateModelIndexFile] opens is the index file of the
    model, and it is empty. *)
Lemma CreateModelIndexFile_file p r root :
  isDirNode root = true ->
  match Proxy.CreateModelIndexFile p r root with
  | (root', Ok f) =>
      isDirNode root' = true /\
      offset f = 0 /\
      locate root' true
        (Join (Proxy.baseDir p)
           ["hub";
            Utils.ConvertModelIDToHFPath (Proxy.Get (Proxy.Vars r) "model_id");
            ".modeindex"]) = Found (fname f) (NFile []) /\
      locate root' false (fname f) = Found (fname f) (NFile [])
  | (root', Err _) => True
  end.
Proof.
  intros Hroot. unfold Proxy.CreateModelIndexFile.
  set (modelID := Proxy.Get (Proxy.Vars r) "model_id").
  set (version := Proxy.Get (Proxy.Vars r) "version").
  unfold Proxy.bind at 1.
  destruct (path_dir p modelID root Hroot) as [H1 Hdir1].
  destruct (Proxy.path p modelID root) as [root1 dir1]. cbn [fst snd] in H1, Hdir1.
  subst dir1.
  unfold Proxy.bind at 1, Proxy.read at 1.
  unfold Proxy.bind at 1.
  assert (H2 : isDirNode
            (fst (Proxy.when (isOk (Stat root1 (Join (Join (Proxy.baseDir p)
                      ["hub"; Utils.ConvertModelIDToHFPath modelID])
                      [".modeindex"])))
                    (Proxy.ignore (fun root0 => Remove root0
                       (Join (Join (Proxy.baseDir p)
                          ["hub"; Utils.ConvertModelIDToHFPath modelID])
                          [".modeindex"]))) root1)) = true).
  { unfold Proxy.when, Proxy.ignore, Proxy.bind, Proxy.ret.
    destruct (isOk _); [|exact H1].
    pose proof (Remove_dir root1 (Join (Join (Proxy.baseDir p)
                  ["hub"; Utils.ConvertModelIDToHFPath modelID]) [".modeindex"]) H1)
      as HR.
    destruct (Remove root1 _). exact HR. }
  destruct (Proxy.when _ _ root1) as [root2 []]. cbn [fst] in H2.
  unfold Proxy.bind at 1.
  rewrite Join_Join. cbn [app].
  pose proof (Create_result root2 (Join (Proxy.baseDir p)
                ["hub"; Utils.ConvertModelIDToHFPath modelID; ".modeindex"]) H2)
    as H3.
  destruct (Create root2 _) as [root3 [f|e]].
  2:{ unfold Proxy.bind at 1.
      destruct (Proxy.path p modelID root3) as [root4 dir4].
      unfold Proxy.bind at 1, Proxy.read at 1. unfold Proxy.bind at 1.
      destruct (Proxy.when _ _ root4) as [root5 []].
      unfold Proxy.bind, Proxy.ignore, Proxy.ret. unfold Proxy.bind.
      destruct (Create root5 _). exact I. }
  destruct H3 as (H3 & Hoff & Hidx & Hreal).
  unfold Proxy.bind at 1.
  destruct (path_dir p modelID root3 H3) as [H4 Hdir4].
  pose proof (path_file p modelID root3 true _ _ _ Hidx) as Hidx4.
  pose proof (path_file p modelID root3 false _ _ _ Hreal) as Hreal4.
  destruct (Proxy.path p modelID root3) as [root4 dir4].
  cbn [fst snd] in H4, Hdir4, Hidx4, Hreal4. subst dir4.
  unfold Proxy.bind at 1, Proxy.read at 1.
  unfold Proxy.bind at 1.
  assert (H5 : let root5 :=
            fst (Proxy.when (notExist (Stat root4 (Join (Join (Proxy.baseDir p)
                      ["hub"; Utils.ConvertModelIDToHFPath modelID]) ["refs"])))
                    (Proxy.ignore (fun root0 => MkdirAll root0
                       (Join (Join (Proxy.baseDir p)
                          ["hub"; Utils.ConvertModelIDToHFPath modelID])
                          ["refs"]))) root4) in
          isDirNode root5 = true /\
          locate root5 true (Join (Proxy.baseDir p)
            ["hub"; Utils.ConvertModelIDToHFPath modelID; ".modeindex"])
            = Found (fname f) (NFile []) /\
          locate root5 false (fname f) = Found (fname f) (NFile [])).
  { unfold Proxy.when, Proxy.ignore, Proxy.bind, Proxy.ret.
    destruct (notExist _); [|cbn [fst]; now repeat split].
    pose proof (MkdirAll_dir root4 (Join (Join (Proxy.baseDir p)
                  ["hub"; Utils.ConvertModelIDToHFPath modelID]) ["refs"]) H4)
      as HM.
    pose proof (MkdirAll_file root4 (Join (Join (Proxy.baseDir p)
                  ["hub"; Utils.ConvertModelIDToHFPath modelID]) ["refs"])
                  true _ _ _ Hidx4) as HM1.
    pose proof (MkdirAll_file root4 (Join (Join (Proxy.baseDir p)
                  ["hub"; Utils.ConvertModelIDToHFPath modelID]) ["refs"])
                  false _ _ _ Hreal4) as HM2.
    destruct (MkdirAll root4 _). cbn [fst] in *. now repeat split. }
  destruct (Proxy.when _ _ root4) as [root5 []]. cbn [fst] in H5.
  destruct H5 as (H5 & Hidx5 & Hreal5).
  unfold Proxy.bind, Proxy.ignore, Proxy.ret. unfold Proxy.bind.
  pose proof (Create_dir root5 (Join (Join (Join (Proxy.baseDir p)
                ["hub"; Utils.ConvertModelIDToHFPath modelID]) ["refs"])
                [version]) H5) as H6.
  pose proof (Create_empty_file root5 (Join (Join (Join (Proxy.baseDir p)
                ["hub"; Utils.ConvertModelIDToHFPath modelID]) ["refs"])
                [version]) true _ _ H5 Hidx5) as Hidx6.
  pose proof (Create_empty_file root5 (Join (Join (Join (Proxy.baseDir p)
                ["hub"; Utils.ConvertModelIDToHFPath modelID]) ["refs"])
                [version]) false _ _ H5 Hreal5) as Hreal6.
  destruct (Create root5 _) as [root6 r6]. cbn [fst] in *.
  split; [exact H6|]. split; [exact Hoff|]. split; [exact Hidx6 | exact Hreal6].
Qed.

End IndexAlone.

Section IndexExchange.
Import Filepath OS.
Variable clock : nat -> Filestorage.Time.
Variable Unmarshal : list byte -> option Filestorage.Model.

(** An index response that is streamed while no other response is: when
    the exchange does not end with the error page, the client has been
    sent the whole body, the index file of the model holds exactly the
    body, whatever it held before, and a later [RepoInfo] for the model
    answers with the document decoded from that body. *)
Theorem ServeHTTP_index_alone p resp chunks root s version :
  let modelID := Proxy.Get (Proxy.Vars (Proxy.Request_ resp)) "model_id" in
  let exchange := Proxy.ServeHTTP p resp chunks root in
  isDirNode root = true ->
  roomy (Proxy.bufferPool p) ->
  String.eqb (Proxy.Method (Proxy.Request_ resp)) "HEAD" = false ->
  Proxy.Get (Proxy.Vars (Proxy.Request_ resp)) "sha" = "" ->
  isOk (Proxy.client (snd exchange)) = true ->
  Filestorage.baseDir s = Join (Proxy.baseDir p) ["hub"] ->
  Proxy.client (snd exchange) = Ok (List.concat chunks) /\
  ReadFile (fst exchange)
    (Join (Proxy.baseDir p)
       ["hub"; Utils.ConvertModelIDToHFPath modelID; ".modeindex"])
    = Ok (List.concat chunks) /\
  Filestorage.RepoInfo clock Unmarshal (fst exchange) s modelID version
    = match Unmarshal (List.concat chunks) with
      | Some model => Ok model
      | None => Err Filestorage.UnmarshalFailed
      end.
Proof.
  intros modelID exchange Hroot Hroomy Hmethod Hsha Hok Hbase.
  assert (Hfile : Proxy.client (snd exchange) = Ok (List.concat chunks) /\
                  ReadFile (fst exchange)
                    (Join (Proxy.baseDir p)
                       ["hub"; Utils.ConvertModelIDToHFPath modelID; ".modeindex"])
                  = Ok (List.concat chunks)).
  { subst exchange. revert Hok.
    unfold Proxy.ServeHTTP, Proxy.WithModifyResponseToCache.
    rewrite Hmethod, Hsha. cbn [String.eqb]. unfold Proxy.bind.
    pose proof (CreateModelIndexFile_file p (Proxy.Request_ resp) root Hroot)
      as Hcreate.
    fold modelID in Hcreate.
    destruct (Proxy.CreateModelIndexFile p (Proxy.Request_ resp) root)
      as [root1 [f|e]]; [|discriminate].
    destruct Hcreate as (Hroot1 & Hoff & Hidx & Hreal).
    destruct (Proxy.Pool.Get (Proxy.bufferPool p)) as [bp buf] eqn:HGet.
    unfold Proxy.ret. cbn [Proxy.bufferPool Proxy.withPool].
    pose proof (Get_roomy _ _ _ Hroomy HGet) as Hbuf.
    set (index := Join (Proxy.baseDir p)
                    ["hub"; Utils.ConvertModelIDToHFPath modelID; ".modeindex"])
      in *.
    set (holds := fun (w : node * File) (data : list byte) =>
           isDirNode (fst w) = true /\
           locate (fst w) false (fname (snd w))
             = Found (fname (snd w)) (NFile data) /\
           offset (snd w) = List.length data /\
           fname (snd w) = fname f /\
           locate (fst w) true index = Found (fname f) (NFile data)).
    assert (Hwrite : forall w data c,
               holds w data ->
               exists w', Proxy.fileWriter w c
                            = (w', (Z.of_nat (List.length c), None)) /\
                          holds w' (data ++ c)).
    { intros [root0 f0] data c (Hd & Hl & Ho & Hn & Hi).
      cbn [fst snd] in Hd, Hl, Ho, Hn, Hi.
      destruct (FileWrite_append root0 f0 data c Hd Hl Ho)
        as (root' & f' & Hw & Hd' & Hn' & Ho' & Hl' & Hframe).
      exists (root', f'). unfold Proxy.fileWriter. cbn [fst snd].
      split; [exact Hw|]. unfold holds. cbn [fst snd].
      split; [exact Hd'|]. split; [rewrite Hn'; exact Hl'|].
      split; [exact Ho'|]. split; [now rewrite Hn'|].
      rewrite <- Hn. apply Hframe. rewrite Hn. exact Hi. }
    destruct (copyBuffer_holds Proxy.fileWriter holds Hwrite chunks
                (Proxy.mkStreamWriter (root1, f)
                   (Proxy.Pool.load (Proxy.Pool.Put bp buf) buf)) [] [])
      as (sw' & Hcopy & Hd & Hl & Ho & Hn & Hi).
    { exact Hbuf. }
    { unfold holds. cbn [Proxy.writer fst snd]. rewrite Hoff.
      repeat split; assumption. }
    rewrite Hcopy. cbn [fst snd Proxy.client app]. intros _.
    split; [reflexivity|]. unfold ReadFile. now rewrite Hi. }
  destruct Hfile as [Hclient Hread]. split; [exact Hclient|].
  split; [exact Hread|].
  unfold Filestorage.RepoInfo. rewrite Hbase, Join_Join. cbn [app].
  destruct (ReadFile_Stat _ _ _ Hread) as [i Hi]. now rewrite Hi, Hread.
Qed.

End IndexExchange.

Section IndexExchangeWitness.
Import Filepath OS.

Lemma ServeHTTP_index_alone_witness :
  let exchange :=
    Proxy.ServeHTTP Scenario.proxy (Scenario.indexResponse "abc123")
      [Scenario.bytes "index "; Scenario.bytes "v2"] Scenario.indexed in
  ReadFile Scenario.indexed
    (Join Scenario.cacheRoot ["hub"; "models--acme--foo"; ".modeindex"])
    = Ok (Scenario.bytes "{}") /\
  Proxy.client (snd exchange) = Ok (Scenario.bytes "index v2") /\
  ReadFile (fst exchange)
    (Join Scenario.cacheRoot ["hub"; "models--acme--foo"; ".modeindex"])
    = Ok (Scenario.bytes "index v2").
Proof.
  split; [reflexivity|].
  destruct (ServeHTTP_index_alone Scenario.clock Scenario.Unmarshal
              Scenario.proxy
              (Scenario.indexResponse "abc123")
              [Scenario.bytes "index "; Scenario.bytes "v2"] Scenario.indexed
              Scenario.storage "main" eq_refl (Forall_nil _) eq_refl eq_refl
              eq_refl eq_refl) as (Hclient & Hread & _).
  split; [exact Hclient | exact Hread].
Defined.

End IndexExchangeWitness.

(** ** Opening the store *)

Section Opening.
Import Filepath OS.

(** What a walk that follows no link in the last position ends on, when
    it is not a link, is what the walk that follows links ends on. *)
Lemma namei_plain root :
  forall fuel rest cur here real n,
    namei fuel root false cur here rest = Found real n ->
    isLink n = false ->
    namei fuel root true cur here rest = Found real n.
Proof.
  induction fuel as [|fuel IHfuel];
    induction rest as [|c rest IHrest]; intros cur here real n H Hn;
    rewrite ?namei_nil, ?namei_cons in *; try exact H;
    destruct here as [| |es]; try exact H;
    destruct (child c es) as [[d|t|es']|]; try exact H;
    try (now apply IHrest);
    destruct rest as [|c' rest'];
    try (cbn in H; injection H as _ <-; discriminate);
    cbn [isNil andb] in *; try exact H.
  now apply IHfuel.
Qed.

Lemma locate_plain root p real n :
  locate root false p = Found real n -> isLink n = false ->
  locate root true p = Found real n.
Proof. apply namei_plain. Qed.

Lemma Mkdir_made root p root' :
  Mkdir root p = (root', None) ->
  exists real, locate root' false p = Found real (NDir []).
Proof.
  unfold Mkdir.
  destruct (locate root false p) as [r n|parent name|e] eqn:Hloc;
    try discriminate.
  intros E. injection E as <-.
  pose proof (namei_get root false maxSymlinks p [] root eq_refl) as G.
  unfold locate in Hloc. rewrite Hloc in G. destruct G as (es0 & Hparent & Hchild).
  exists (parent ++ [name]).
  apply (locate_graft_new root parent name (NDir []) es0 false p Hparent);
    [now left | reflexivity | now left].
Qed.

Lemma Stat_directory root p i :
  Stat root p = Ok i -> IsDir i = true ->
  exists real es, locate root true p = Found real (NDir es).
Proof.
  unfold Stat. destruct (locate root true p) as [real n| |]; try discriminate.
  intros E Hdir. injection E as <-. rewrite IsDir_infoOf in Hdir.
  destruct n as [| |es]; try discriminate. eauto.
Qed.

Lemma Lstat_directory root p i :
  Lstat root p = Ok i -> IsDir i = true ->
  exists real es, locate root false p = Found real (NDir es).
Proof.
  unfold Lstat. destruct (locate root false p) as [real n| |]; try discriminate.
  intros E Hdir. injection E as <-. rewrite IsDir_infoOf in Hdir.
  destruct n as [| |es]; try discriminate. eauto.
Qed.

(** When [os.MkdirAll] reports no error the path leads to a directory. *)
Lemma mkdirAll_made rev_p : forall root root',
  mkdirAll root rev_p = (root', None) ->
  exists real es, locate root' true (rev rev_p) = Found real (NDir es).
Proof.
  induction rev_p as [|c rev_parent IH]; intros root root'; cbn [mkdirAll].
  - destruct (Stat root _) as [i|e] eqn:HS; [|discriminate].
    destruct (IsDir i) eqn:Hi; [|discriminate].
    intros E. injection E as <-. exact (Stat_directory _ _ _ HS Hi).
  - destruct (Stat root _) as [i|e] eqn:HS.
    { destruct (IsDir i) eqn:Hi; [|discriminate].
      intros E. injection E as <-. exact (Stat_directory _ _ _ HS Hi). }
    destruct (mkdirAll root rev_parent) as [root1 [e1|]]; [discriminate|].
    destruct (Mkdir root1 _) as [root2 [e2|]] eqn:HM.
    + destruct (Lstat root2 _) as [i|e'] eqn:HL; [|discriminate].
      destruct (IsDir i) eqn:Hi; [|discriminate].
      intros E. injection E as <-.
      destruct (Lstat_directory _ _ _ HL Hi) as (real & es & Hloc).
      exists real, es. now apply locate_plain.
    + intros E. injection E as <-.
      destruct (Mkdir_made _ _ _ HM) as [real Hloc].
      exists real, []. now apply locate_plain.
Qed.

(** [NewStorage] makes the [hub] directory only when nothing is there.
    When it succeeds after finding nothing, [hub] is a directory; when
    something is there, a directory or not, it succeeds and leaves the
    file system as it is; and it fails only when nothing is there and
    the directory cannot be made. *)
Theorem NewStorage_hub root base :
  let hub := Join base ["hub"] in
  let opened := Filestorage.NewStorage root base in
  (forall s, snd opened = Ok s -> Filestorage.baseDir s = hub) /\
  (isOk (snd opened) = true -> Stat root hub = Err ENOENT ->
   exists real es, locate (fst opened) true hub = Found real (NDir es)) /\
  (Stat root hub <> Err ENOENT ->
   opened = (root, Ok (Filestorage.mkStorage hub))) /\
  (isOk (snd opened) = false -> Stat root hub = Err ENOENT).
Proof.
  intros hub opened. subst opened. unfold Filestorage.NewStorage. fold hub.
  destruct (notExist (Stat root hub)) eqn:HN.
  - assert (HS : Stat root hub = Err ENOENT).
    { destruct (Stat root hub) as [i|[]]; try discriminate. reflexivity. }
    destruct (MkdirAll root hub) as [root' [e'|]] eqn:HM; cbn [fst snd isOk].
    + split; [discriminate|]. split; [discriminate|].
      split; [intros H; now destruct H | intros _; exact HS].
    + split; [intros s E; now injection E as <-|].
      split; [|split; [intros H; now destruct H | discriminate]].
      intros _ _. unfold MkdirAll in HM.
      destruct (mkdirAll_made _ _ _ HM) as (real & es & Hloc).
      rewrite rev_involutive in Hloc. eauto.
  - cbn [fst snd isOk].
    split; [intros s E; now injection E as <-|].
    split; [intros _ HS; rewrite HS in HN; discriminate|].
    split; [reflexivity | discriminate].
Qed.

Lemma NewStorage_hub_witness :
  (exists real es,
     locate (fst (Filestorage.NewStorage Scenario.fresh Scenario.cacheRoot)) true
       (Join Scenario.cacheRoot ["hub"]) = Found real (NDir es)) /\
  Filestorage.NewStorage
    (NDir [("tmp", NDir [("LLMDistribution", NDir [("hub", NFile [])])])])
    Scenario.cacheRoot
  = (NDir [("tmp", NDir [("LLMDistribution", NDir [("hub", NFile [])])])],
     Ok Scenario.storage).
Proof.
  split.
  - apply (proj1 (proj2 (NewStorage_hub Scenario.fresh Scenario.cacheRoot)));
      reflexivity.
  - apply (proj1 (proj2 (proj2
             (NewStorage_hub
                (NDir [("tmp", NDir [("LLMDistribution",
                                      NDir [("hub", NFile [])])])])
                Scenario.cacheRoot)))).
    discriminate.
Defined.

End Opening.
